(** * Matho: dual slope generator (src/src/Matho.cpp)

    A shallow embedding of [Matho::process], [Matho::processSlope] and
    [Matho::applyCurve], and the properties of the slope engine proved on it.

    Numbers: the C++ [float] fields and locals are read as real numbers
    ([R] of the Standard Library): the arithmetic is the exact one, rounding,
    infinities and NaN are outside the model.  Comparisons are the decidable
    ones of [R], turned into [bool] as the C++ conditions are.

    The VCV Rack API is outside the repository; the three pieces of it that
    the code relies on are written out below ([clamp], [getVoltage] of a port
    without a cable, [random::uniform] as an oracle supplying the draws).
    The freeze and chaos lights and the [printf] of the freeze toggle are
    written by [process] and read nowhere; they are left out.

    [process] adds [deltaTime] to its clock in exact arithmetic here, where
    the source adds two [float]s; what is proved about the sync period is
    therefore stated on the clock readings that [processSlope] receives,
    not on sums of sample times. *)

From Stdlib Require Import Reals Lra Bool List ZArith.
Import ListNotations.
Open Scope R_scope.

(** ** Numeric layer *)

Module Num.

Definition Rgtb (a b : R) : bool := if Rlt_dec b a then true else false.
Definition Rltb (a b : R) : bool := if Rlt_dec a b then true else false.
Definition Rgeb (a b : R) : bool := if Rle_dec b a then true else false.
Definition Rleb (a b : R) : bool := if Rle_dec a b then true else false.
Definition Rneqb (a b : R) : bool := if Req_dec_T a b then false else true.

(** [rack::math::clamp(x, a, b)] is [fmax(fmin(x, b), a)]. *)
Definition clamp (x a b : R) : R := Rmax (Rmin x b) a.

(** [pow(x, y)] of <cmath> on the part of its domain the module reaches:
    a base [x >= 0] and an exponent [y >= 0].  For a positive base it is
    [exp (y * ln x)]; [pow(0, y)] is 0 for [y > 0] and [pow(x, 0)] is 1.
    For a negative base the value below is not the one of <cmath>; no
    statement of this file depends on it. *)
Definition powf (x y : R) : R :=
  if Req_dec_T y 0 then 1
  else if Rle_dec x 0 then 0
  else Rpower x y.

End Num.
Export Num.

(** ** Rack ports *)

(** An input jack: whether a cable is plugged, and the voltage the cable
    carries.  Rack zeroes the voltage of a port without a cable, so
    [getVoltage] reads 0 there. *)
Record Port : Type := mkPort { plugged : bool; cable : R }.

Definition isConnected (p : Port) : bool := plugged p.
Definition getVoltage (p : Port) : R := if plugged p then cable p else 0.

(** ** Per-channel data *)

(** What one call of [processSlope] reads from [params] and [inputs] for its
    channel, with the three places where it calls [random::uniform()]. *)
Record SlopeIO : Type := mkSlopeIO {
  trigInput : Port;
  riseParam : R;
  fallParam : R;
  curveParam : R;
  breakpointParam : R;
  rateParam : R;
  riseCvInput : Port;
  fallCvInput : Port;
  curveCvInput : Port;
  breakpointCvInput : Port;
  rateCvInput : Port;
  cycleParam : R;
  syncInput : Port;
  trigModeParam : Z;          (* (int)params[trigModeParam].getValue() *)
  uniformTrigger : R;         (* random::uniform() on an accepted trigger *)
  uniformSync : R;            (* random::uniform() on a sync edge *)
  uniformCycle : R            (* random::uniform() on the cycle restart *)
}.

(** The variables [processSlope] receives by reference, and the three lights
    of the channel. *)
Record Channel : Type := mkChannel {
  phase : R;
  value : R;
  derivative : R;
  integral : R;
  rising : bool;
  endPulse : bool;
  breakpointPulse : bool;
  prevTrigger : bool;
  chaosMod : R;
  prevSync : bool;
  lastSyncTime : R;
  syncPeriod : R;
  activeLight : R;
  endLight : R;
  breakpointLight : R
}.

(** Field updates, named after what the code assigns. *)

Definition withPhase (p : R) (ch : Channel) : Channel :=
  mkChannel p (value ch) (derivative ch) (integral ch) (rising ch)
            (endPulse ch) (breakpointPulse ch) (prevTrigger ch) (chaosMod ch)
            (prevSync ch) (lastSyncTime ch) (syncPeriod ch)
            (activeLight ch) (endLight ch) (breakpointLight ch).

Definition withPrevTrigger (b : bool) (ch : Channel) : Channel :=
  mkChannel (phase ch) (value ch) (derivative ch) (integral ch) (rising ch)
            (endPulse ch) (breakpointPulse ch) b (chaosMod ch)
            (prevSync ch) (lastSyncTime ch) (syncPeriod ch)
            (activeLight ch) (endLight ch) (breakpointLight ch).

Definition withPrevSync (b : bool) (ch : Channel) : Channel :=
  mkChannel (phase ch) (value ch) (derivative ch) (integral ch) (rising ch)
            (endPulse ch) (breakpointPulse ch) (prevTrigger ch) (chaosMod ch)
            b (lastSyncTime ch) (syncPeriod ch)
            (activeLight ch) (endLight ch) (breakpointLight ch).

Definition withSyncPeriod (t : R) (ch : Channel) : Channel :=
  mkChannel (phase ch) (value ch) (derivative ch) (integral ch) (rising ch)
            (endPulse ch) (breakpointPulse ch) (prevTrigger ch) (chaosMod ch)
            (prevSync ch) (lastSyncTime ch) t
            (activeLight ch) (endLight ch) (breakpointLight ch).

Definition withLastSyncTime (t : R) (ch : Channel) : Channel :=
  mkChannel (phase ch) (value ch) (derivative ch) (integral ch) (rising ch)
            (endPulse ch) (breakpointPulse ch) (prevTrigger ch) (chaosMod ch)
            (prevSync ch) t (syncPeriod ch)
            (activeLight ch) (endLight ch) (breakpointLight ch).

Definition withBreakpointPulse (b : bool) (ch : Channel) : Channel :=
  mkChannel (phase ch) (value ch) (derivative ch) (integral ch) (rising ch)
            (endPulse ch) b (prevTrigger ch) (chaosMod ch)
            (prevSync ch) (lastSyncTime ch) (syncPeriod ch)
            (activeLight ch) (endLight ch) (breakpointLight ch).

(** [(random::uniform() - 0.5f) * 2.0f] *)
Definition newChaos (u : R) : R := (u - 0.5) * 2.0.

(** [phase = 0; rising = true; value = 0; chaosMod = ...]: the start of a
    cycle, as written on an accepted trigger, on a sync edge and on the
    restart of a cycle. *)
Definition restartCycle (seed : R) (ch : Channel) : Channel :=
  mkChannel 0 0 (derivative ch) (integral ch) true
            (endPulse ch) (breakpointPulse ch) (prevTrigger ch) seed
            (prevSync ch) (lastSyncTime ch) (syncPeriod ch)
            (activeLight ch) (endLight ch) (breakpointLight ch).

(** The body of [if (!inputs[trigInput].isConnected())]. *)
Definition resetNeutral (ch : Channel) : Channel :=
  mkChannel 0 0 0 0 true false false false (chaosMod ch)
            (prevSync ch) (lastSyncTime ch) (syncPeriod ch)
            (activeLight ch) (endLight ch) (breakpointLight ch).

(** ** applyCurve *)

Definition applyCurve (phase curve : R) : R :=
  if Rltb curve 0 then
    let shape := - curve in
    powf phase (1 + shape * 2)
  else if Rgtb curve 0 then
    let shape := curve in
    1 - powf (1 - phase) (1 + shape * 8)
  else phase.

(** ** processSlope, block by block *)

(** The [switch (trigMode)]; [triggerAccepted] starts as [false] and no
    other case assigns it. *)
Definition triggerAccepted (trigMode : Z) (ch : Channel) : bool :=
  match trigMode with
  | 0%Z => true
  | 1%Z => rising ch && Rltb (phase ch) 1
  | 2%Z => negb (rising ch) && Rltb (phase ch) 1
  | 3%Z => negb (rising ch) && Rgeb (phase ch) 1
  | _ => false
  end.

Definition currentTrigger (io : SlopeIO) : bool :=
  Rgtb (getVoltage (trigInput io)) 0.5.

(** Lines 396-441: reset on a missing cable, edge detection, acceptance. *)
Definition triggerBlock (io : SlopeIO) (ch : Channel) : Channel :=
  let ch1 := if negb (isConnected (trigInput io)) then resetNeutral ch else ch in
  let ch2 :=
    if currentTrigger io && negb (prevTrigger ch1) then
      if triggerAccepted (trigModeParam io) ch1
      then restartCycle (newChaos (uniformTrigger io)) ch1
      else ch1
    else ch1 in
  withPrevTrigger (currentTrigger io) ch2.

Definition syncEnabled (io : SlopeIO) : bool := isConnected (syncInput io).
Definition currentSync (io : SlopeIO) : bool :=
  Rgtb (getVoltage (syncInput io)) 0.5.

(** Lines 443-470: the sync edge and the period measurement. *)
Definition syncBlock (io : SlopeIO) (currentTime : R) (ch : Channel) : Channel :=
  let ch1 := if negb (isConnected (syncInput io)) then withPrevSync false ch else ch in
  let ch2 :=
    if syncEnabled io && currentSync io && negb (prevSync ch1) then
      let ch3 :=
        if Rgtb (lastSyncTime ch1) 0
        then withSyncPeriod (clamp (currentTime - lastSyncTime ch1) 0.01 10.0) ch1
        else ch1 in
      restartCycle (newChaos (uniformSync io)) (withLastSyncTime currentTime ch3)
    else ch1 in
  withPrevSync (currentSync io) ch2.

(** Lines 475-520: the parameters of the tick. *)

(** The knob law of the rise and fall times. *)
Definition knobTime (x : R) : R :=
  if Rleb x 0.5 then x * 2.0
  else 1.0 + powf ((x - 0.5) * 2.0) 2.0 * 4.0.

Definition riseParamValue (io : SlopeIO) : R :=
  clamp (riseParam io + getVoltage (riseCvInput io) * 0.1) 0 1.
Definition fallParamValue (io : SlopeIO) : R :=
  clamp (fallParam io + getVoltage (fallCvInput io) * 0.1) 0 1.

(** [breakpoint] after its two clamps. *)
Definition breakpointOf (io : SlopeIO) : R :=
  clamp (clamp (breakpointParam io + getVoltage (breakpointCvInput io) * 0.1)
               0 0.9999) 0 1.

(** [chaosEffect] where the chaos branch is taken. *)
Definition chaosEffect (chaosAmount : R) (ch : Channel) : R :=
  chaosMod ch * chaosAmount.

(** [curve] after its clamp and the chaos branch. *)
Definition curveOf (io : SlopeIO) (chaosAmount : R) (ch : Channel) : R :=
  let curve := clamp (curveParam io + getVoltage (curveCvInput io) * 0.1) (-1) 1 in
  if Rgtb chaosAmount 0
  then clamp (curve + chaosEffect chaosAmount ch * 0.5) (-1) 1
  else curve.

Definition rateOffset (io : SlopeIO) : R :=
  (rateParam io - 0.5) * 2.0 + getVoltage (rateCvInput io) * 0.2.

(** A stage time from its knob value: chaos, rate offset, final clamp. *)
Definition stageTime (io : SlopeIO) (chaosAmount : R) (ch : Channel) (knob : R) : R :=
  let t := knobTime knob in
  let t := if Rgtb chaosAmount 0
           then t * (1.0 + chaosEffect chaosAmount ch * 1.0) else t in
  clamp (t + rateOffset io) 0.001 20.0.

Definition riseTimeOf (io : SlopeIO) (chaosAmount : R) (ch : Channel) : R :=
  stageTime io chaosAmount ch (riseParamValue io).
Definition fallTimeOf (io : SlopeIO) (chaosAmount : R) (ch : Channel) : R :=
  stageTime io chaosAmount ch (fallParamValue io).

(** Lines 522-532: the time of the active stage, rescaled under sync. *)
Definition envelopeTimeOf (io : SlopeIO) (chaosAmount : R) (ch : Channel) : R :=
  let riseTime := riseTimeOf io chaosAmount ch in
  let fallTime := fallTimeOf io chaosAmount ch in
  let envelopeTime := if rising ch then riseTime else fallTime in
  if syncEnabled io && Rgtb (syncPeriod ch) 0 then
    let totalEnvelopeTime := riseTime + fallTime in
    let syncScale := syncPeriod ch / totalEnvelopeTime in
    envelopeTime * syncScale
  else envelopeTime.

(** Line 534: [phase += deltaTime / envelopeTime]. *)
Definition advancedPhase (io : SlopeIO) (deltaTime chaosAmount : R) (ch : Channel) : R :=
  phase ch + deltaTime / envelopeTimeOf io chaosAmount ch.

Definition advancePhase (io : SlopeIO) (deltaTime chaosAmount : R) (ch : Channel) : Channel :=
  withPhase (advancedPhase io deltaTime chaosAmount ch) ch.

(** Lines 536-544, read on the channel after [advancePhase]. *)
Definition cyclePhase (ch : Channel) : R :=
  if rising ch then phase ch else 1.0 + phase ch.
Definition breakpointPhase (io : SlopeIO) : R := breakpointOf io * 2.0.

Definition breakpointTriggered (io : SlopeIO) (ch : Channel) : bool :=
  Rgeb (cyclePhase ch) (breakpointPhase io) && negb (breakpointPulse ch).

Definition breakpointCheck (io : SlopeIO) (ch : Channel) : Channel :=
  if breakpointTriggered io ch then withBreakpointPulse true ch else ch.

(** Lines 546-569.  [fallCompletes] is the condition under which the inner
    [else] runs: the phase of the fall stage has reached 1. *)
Definition fallCompletes (ch : Channel) : bool :=
  Rgeb (phase ch) 1 && negb (rising ch).

(** [params[cycleParam].getValue() > 0.5f && !syncEnabled] *)
Definition autoRestart (io : SlopeIO) : bool :=
  Rgtb (cycleParam io) 0.5 && negb (syncEnabled io).

Definition endOfCycle (io : SlopeIO) (ch : Channel) : Channel :=
  if Rgeb (phase ch) 1 then
    if rising ch then
      mkChannel 0 1 (derivative ch) (integral ch) false
                (endPulse ch) (breakpointPulse ch) (prevTrigger ch) (chaosMod ch)
                (prevSync ch) (lastSyncTime ch) (syncPeriod ch)
                (activeLight ch) (endLight ch) (breakpointLight ch)
    else
      let ch1 :=
        if autoRestart io
        then restartCycle (newChaos (uniformCycle io)) ch
        else mkChannel 1 0 (derivative ch) (integral ch) (rising ch)
                (endPulse ch) (breakpointPulse ch) (prevTrigger ch) (chaosMod ch)
                (prevSync ch) (lastSyncTime ch) (syncPeriod ch)
                (activeLight ch) (endLight ch) (breakpointLight ch) in
      mkChannel (phase ch1) (value ch1) (derivative ch1) (integral ch1) (rising ch1)
                true false (prevTrigger ch1) (chaosMod ch1)
                (prevSync ch1) (lastSyncTime ch1) (syncPeriod ch1)
                (activeLight ch1) (endLight ch1) (breakpointLight ch1)
  else ch.

(** Lines 571-577, as functions of the stage and of its phase. *)
Definition rawPhaseAt (curve p : R) : R :=
  if Rneqb curve 0 then applyCurve p curve else p.

Definition slopeValueAt (curve : R) (rising : bool) (p : R) : R :=
  if rising then rawPhaseAt curve p else 1.0 - rawPhaseAt curve p.

Definition rawPhaseOf (curve : R) (ch : Channel) : R := rawPhaseAt curve (phase ch).
Definition slopeValue (curve : R) (ch : Channel) : R :=
  slopeValueAt curve (rising ch) (phase ch).

(** Line 580, as written. *)
Definition derivativeOf (curve deltaTime currentTime : R) (ch : Channel) : R :=
  let rawPhase := rawPhaseOf curve ch in
  (slopeValue curve ch
   - (if rising ch then rawPhase - deltaTime / currentTime
      else 1.0 - (rawPhase - deltaTime / currentTime))) / deltaTime.

(** Lines 571-592: value, derivative, integral, lights, and the final
    [endPulse = false]. *)
Definition publish (curve deltaTime currentTime : R) (triggered : bool) (ch : Channel) : Channel :=
  let v := slopeValue curve ch in
  mkChannel (phase ch) v (derivativeOf curve deltaTime currentTime ch)
            (integral ch + v * deltaTime) (rising ch)
            false (breakpointPulse ch) (prevTrigger ch) (chaosMod ch)
            (prevSync ch) (lastSyncTime ch) (syncPeriod ch)
            v (if endPulse ch then 1.0 else 0.0) (if triggered then 1.0 else 0.0).

(** Lines 475-592, the part of the tick that [if (freeze) return;] skips.
    [curve] is computed before the restart of a cycle can redraw [chaosMod],
    as in the source. *)
Definition advance (io : SlopeIO) (deltaTime chaosAmount currentTime : R) (ch : Channel) : Channel :=
  let curve := curveOf io chaosAmount ch in
  let ch1 := advancePhase io deltaTime chaosAmount ch in
  let triggered := breakpointTriggered io ch1 in
  let ch2 := breakpointCheck io ch1 in
  let ch3 := endOfCycle io ch2 in
  publish curve deltaTime currentTime triggered ch3.

Definition processSlope (io : SlopeIO) (deltaTime : R) (freeze : bool)
           (chaosAmount currentTime : R) (ch : Channel) : Channel :=
  let ch1 := syncBlock io currentTime (triggerBlock io ch) in
  if freeze then ch1 else advance io deltaTime chaosAmount currentTime ch1.

(** ** The module *)

(** The fields of [Matho] and the two function-local statics of [process]
    ([prevFreezeAButton], [prevFreezeBButton]).  A static is one variable
    for all instances of the module: as a field it is the static of a patch
    that holds one instance. *)
Record Matho : Type := mkMatho {
  slopeA : Channel;
  slopeB : Channel;
  freezeAState : bool;
  freezeBState : bool;
  prevFreezeAButton : bool;
  prevFreezeBButton : bool;
  currentTime : R;
  prevAValue : R;
  prevBValue : R
}.

(** What one call of [process] reads. *)
Record Tick : Type := mkTick {
  sampleTime : R;
  ioA : SlopeIO;
  ioB : SlopeIO;
  freezeAButton : R;
  freezeBButton : R;
  freezeACv : Port;
  freezeBCv : Port;
  chaosAParam : R;
  chaosBParam : R;
  chaosACv : Port;
  chaosBCv : Port;
  mixParam : R
}.

(** The voltages [process] writes. *)
Record Outputs : Type := mkOutputs {
  A_SLOPE_OUTPUT : R; A_END_OUTPUT : R; A_PULSE_OUTPUT : R;
  A_BREAKPOINT_OUTPUT : R; A_DERIVATIVE_OUTPUT : R; A_INTEGRAL_OUTPUT : R;
  B_SLOPE_OUTPUT : R; B_END_OUTPUT : R; B_PULSE_OUTPUT : R;
  B_BREAKPOINT_OUTPUT : R; B_DERIVATIVE_OUTPUT : R; B_INTEGRAL_OUTPUT : R;
  MIX_OUTPUT : R; MIN_OUTPUT : R; MAX_OUTPUT : R; SUM_OUTPUT : R
}.

(** The member initialisers of lines 121-164 with the two draws of the
    constructor; the lights start dark. *)
Definition initChannel (u : R) : Channel :=
  mkChannel 0 0 0 0 false false false false (newChaos u) false 0 1.0 0 0 0.

Definition initMatho (uA uB : R) : Matho :=
  mkMatho (initChannel uA) (initChannel uB) false false false false 0 0 0.

(** Lines 281-300: the button toggle, then the CV override. *)
Definition freezeStep (button : R) (cv : Port) (prevButton state : bool) : bool :=
  let pressed := Rgtb button 0.5 in
  let state1 := if pressed && negb prevButton then negb state else state in
  if isConnected cv then
    if Rgtb (getVoltage cv) 2.0 then true
    else if Rltb (getVoltage cv) 2.0 then false
    else state1
  else state1.

Definition chaosAmountOf (param : R) (cv : Port) : R :=
  clamp (param + getVoltage cv * 0.1) 0 1.

Definition outputsOf (mix : R) (a b : Channel) : Outputs :=
  mkOutputs
    (value a * 10.0) (if endPulse a then 10.0 else 0.0)
    (if endPulse a then 10.0 else 0.0)
    (if breakpointPulse a then 10.0 else 0.0)
    (derivative a * 5.0) (integral a * 2.0)
    (value b * 10.0) (if endPulse b then 10.0 else 0.0)
    (if endPulse b then 10.0 else 0.0)
    (if breakpointPulse b then 10.0 else 0.0)
    (derivative b * 5.0) (integral b * 2.0)
    ((value a * (1.0 - mix) + value b * mix) * 10.0)
    (Rmin (value a) (value b) * 10.0)
    (Rmax (value a) (value b) * 10.0)
    ((value a + value b) * 10.0).

Definition frozenA (t : Tick) (m : Matho) : bool :=
  freezeStep (freezeAButton t) (freezeACv t) (prevFreezeAButton m) (freezeAState m).
Definition frozenB (t : Tick) (m : Matho) : bool :=
  freezeStep (freezeBButton t) (freezeBCv t) (prevFreezeBButton m) (freezeBState m).

Definition process (t : Tick) (m : Matho) : Matho * Outputs :=
  let deltaTime := sampleTime t in
  let fA := frozenA t m in
  let fB := frozenB t m in
  let chaosAAmount := chaosAmountOf (chaosAParam t) (chaosACv t) in
  let chaosBAmount := chaosAmountOf (chaosBParam t) (chaosBCv t) in
  let now := currentTime m + deltaTime in
  let a := processSlope (ioA t) deltaTime fA chaosAAmount now (slopeA m) in
  let b := processSlope (ioB t) deltaTime fB chaosBAmount now (slopeB m) in
  (mkMatho a b fA fB (Rgtb (freezeAButton t) 0.5) (Rgtb (freezeBButton t) 0.5)
           now (value a) (value b),
   outputsOf (mixParam t) a b).

Definition step (t : Tick) (m : Matho) : Matho := fst (process t m).

(** The module after a sequence of ticks, first tick first. *)
Fixpoint run (ts : list Tick) (m : Matho) : Matho :=
  match ts with
  | [] => m
  | t :: ts' => run ts' (step t m)
  end.

(** The outputs written tick by tick. *)
Fixpoint trace (ts : list Tick) (m : Matho) : list Outputs :=
  match ts with
  | [] => []
  | t :: ts' => snd (process t m) :: trace ts' (step t m)
  end.

(** ** Notions used in the statements *)

(** The conditions of the two edge tests of [processSlope], on the channel
    as the call receives it. *)
Definition triggerEdge (io : SlopeIO) (ch : Channel) : bool :=
  currentTrigger io && negb (prevTrigger ch).

Definition syncEdge (io : SlopeIO) (ch : Channel) : bool :=
  syncEnabled io && currentSync io && negb (prevSync ch).

(** A trigger edge that the mode accepts. *)
Definition acceptedTrigger (io : SlopeIO) (ch : Channel) : bool :=
  triggerEdge io ch && triggerAccepted (trigModeParam io) ch.

(** The channel as the advancing part of the tick receives it. *)
Definition afterEdges (io : SlopeIO) (now : R) (ch : Channel) : Channel :=
  syncBlock io now (triggerBlock io ch).

(** The tick runs the inner [else] of the end-of-cycle test. *)
Definition completesFall (io : SlopeIO) (deltaTime : R) (freeze : bool)
           (chaosAmount now : R) (ch : Channel) : bool :=
  negb freeze
  && fallCompletes (advancePhase io deltaTime chaosAmount (afterEdges io now ch)).

(** Phase and value within the unit interval. *)
Definition inRange (ch : Channel) : Prop :=
  0 <= phase ch <= 1 /\ 0 <= value ch <= 1.

(** The neutral state of a channel. *)
Definition neutral (ch : Channel) : Prop :=
  value ch = 0 /\ derivative ch = 0 /\ integral ch = 0 /\
  endPulse ch = false /\ breakpointPulse ch = false /\
  phase ch = 0 /\ rising ch = true /\ prevTrigger ch = false.

(** One call of [processSlope]: what it reads, with the clock reading
    [process] passes to it. *)
Record SlopeCall : Type := mkSlopeCall {
  callIO : SlopeIO;
  callDelta : R;
  callFreeze : bool;
  callChaos : R;
  callClock : R
}.

Definition callSlope (c : SlopeCall) (ch : Channel) : Channel :=
  processSlope (callIO c) (callDelta c) (callFreeze c) (callChaos c)
               (callClock c) ch.

(** A channel after a sequence of calls, first call first. *)
Fixpoint callsSlope (cs : list SlopeCall) (ch : Channel) : Channel :=
  match cs with
  | [] => ch
  | c :: cs' => callsSlope cs' (callSlope c ch)
  end.

(** No call of the sequence sees a sync edge. *)
Fixpoint noSyncEdgeIn (cs : list SlopeCall) (ch : Channel) : bool :=
  match cs with
  | [] => true
  | c :: cs' =>
      negb (syncEdge (callIO c) ch) && noSyncEdgeIn cs' (callSlope c ch)
  end.

(** [process] runs the same [processSlope] on both channels; a side picks
    one of them, with what [process] passes to its call. *)
Inductive Side : Type := SideA | SideB.

Definition slopeOf (s : Side) (m : Matho) : Channel :=
  match s with SideA => slopeA m | SideB => slopeB m end.

Definition ioOf (s : Side) (t : Tick) : SlopeIO :=
  match s with SideA => ioA t | SideB => ioB t end.

Definition frozenOf (s : Side) (t : Tick) (m : Matho) : bool :=
  match s with SideA => frozenA t m | SideB => frozenB t m end.

Definition chaosOf (s : Side) (t : Tick) : R :=
  match s with
  | SideA => chaosAmountOf (chaosAParam t) (chaosACv t)
  | SideB => chaosAmountOf (chaosBParam t) (chaosBCv t)
  end.

(** Every tick of the sequence finds the channel frozen, its trigger cable
    plugged, and neither an accepted trigger edge nor a sync edge. *)
Fixpoint frozenQuiet (s : Side) (ts : list Tick) (m : Matho) : bool :=
  match ts with
  | [] => true
  | t :: ts' =>
      frozenOf s t m
      && isConnected (trigInput (ioOf s t))
      && negb (acceptedTrigger (ioOf s t) (slopeOf s m))
      && negb (syncEdge (ioOf s t) (slopeOf s m))
      && frozenQuiet s ts' (step t m)
  end.

(** The latch as the specification words it: once set, [breakpointPulse]
    stays set through every tick but the one that completes the fall. *)
Definition claimed_breakpoint_latch : Prop :=
  forall io deltaTime freeze chaosAmount now ch,
    breakpointPulse ch = true ->
    completesFall io deltaTime freeze chaosAmount now ch = false ->
    breakpointPulse (processSlope io deltaTime freeze chaosAmount now ch) = true.

(** The frame of a frozen tick as the specification words it: without an
    accepted trigger edge or a sync edge, phase, value, derivative and
    integral are those of the tick before. *)
Definition claimed_freeze_frame : Prop :=
  forall io deltaTime chaosAmount now ch,
    acceptedTrigger io ch = false ->
    syncEdge io ch = false ->
    phase (processSlope io deltaTime true chaosAmount now ch) = phase ch /\
    value (processSlope io deltaTime true chaosAmount now ch) = value ch /\
    derivative (processSlope io deltaTime true chaosAmount now ch) = derivative ch /\
    integral (processSlope io deltaTime true chaosAmount now ch) = integral ch.

(** The End and Pulse outputs of both channels at 0 V. *)
Definition endOutputsLow (o : Outputs) : Prop :=
  A_END_OUTPUT o = 0 /\ A_PULSE_OUTPUT o = 0 /\
  B_END_OUTPUT o = 0 /\ B_PULSE_OUTPUT o = 0.

(** ** Sample inputs *)

Definition noCable : Port := mkPort false 0.
Definition cableAt (v : R) : Port := mkPort true v.

(** A channel's panel with the knobs the statements do not vary left at
    their defaults (rise, fall and rate at 0.5, curve at 0), no CV cable,
    and draws of 0.5. *)
Definition panel (trig sync : Port) (trigMode : Z) (cycle breakpoint : R) : SlopeIO :=
  mkSlopeIO trig 0.5 0.5 0 breakpoint 0.5
            noCable noCable noCable noCable noCable
            cycle sync trigMode 0.5 0.5 0.5.

(** A tick of the module with the given panel and freeze button for
    channel A, channel B left unpatched, no freeze or chaos CV. *)
Definition tickA (io : SlopeIO) (deltaTime button : R) : Tick :=
  mkTick deltaTime io (panel noCable noCable 0 0 0.5) button 0
         noCable noCable 0 0 noCable noCable 0.5.

(** A channel in the given stage at the given phase, with the value the
    linear curve gives it, nothing latched and no sync seen. *)
Definition stageAt (r : bool) (p : R) (breakpointLatched : bool) : Channel :=
  mkChannel p (if r then p else 1 - p) 0 0 r false breakpointLatched
            false 0 false 0 1.0 0 0 0.

(** The module one second in, channel A as given, nothing frozen. *)
Definition moduleAt (a : Channel) : Matho :=
  mkMatho a (initChannel 0.5) false false false false 1 (value a) 0.

(** ** Further notions for the slope engine *)

(** The resting state of a channel: the fall is over, nothing is latched. *)
Definition atRest (ch : Channel) : Prop :=
  rising ch = false /\ phase ch = 1 /\ value ch = 0 /\ breakpointPulse ch = false.

(** All the draws a tick supplies lie in the range of [random::uniform()]. *)
Definition drawsInUnit (io : SlopeIO) : Prop :=
  0 <= uniformTrigger io <= 1 /\ 0 <= uniformSync io <= 1 /\
  0 <= uniformCycle io <= 1.

(** The two statics of [process] are one pair of variables for the whole
    program.  A patch with two instances of the module: every call of
    [process] reads the flags the last call, of either instance, has left,
    and leaves its own. *)
Record Statics : Type := mkStatics {
  staticPrevFreezeA : bool;
  staticPrevFreezeB : bool
}.

Record Patch : Type := mkPatch {
  statics : Statics;
  firstModule : Matho;
  secondModule : Matho
}.

Inductive Instance : Type := First | Second.

Definition staticsOf (m : Matho) : Statics :=
  mkStatics (prevFreezeAButton m) (prevFreezeBButton m).

Definition withStatics (g : Statics) (m : Matho) : Matho :=
  mkMatho (slopeA m) (slopeB m) (freezeAState m) (freezeBState m)
          (staticPrevFreezeA g) (staticPrevFreezeB g)
          (currentTime m) (prevAValue m) (prevBValue m).

(** One call of [process] on an instance of the patch. *)
Definition stepIn (i : Instance) (t : Tick) (p : Patch) : Patch :=
  match i with
  | First =>
      let m := step t (withStatics (statics p) (firstModule p)) in
      mkPatch (staticsOf m) m (secondModule p)
  | Second =>
      let m := step t (withStatics (statics p) (secondModule p)) in
      mkPatch (staticsOf m) (firstModule p) m
  end.

(** The freeze state of channel A of the first instance. *)
Definition frozenFirst (p : Patch) : bool := freezeAState (firstModule p).

(** A channel with its seed replaced, a panel with its draws replaced. *)
Definition withChaosMod (seed : R) (ch : Channel) : Channel :=
  mkChannel (phase ch) (value ch) (derivative ch) (integral ch) (rising ch)
            (endPulse ch) (breakpointPulse ch) (prevTrigger ch) seed
            (prevSync ch) (lastSyncTime ch) (syncPeriod ch)
            (activeLight ch) (endLight ch) (breakpointLight ch).

Definition withDraws (u1 u2 u3 : R) (io : SlopeIO) : SlopeIO :=
  mkSlopeIO (trigInput io) (riseParam io) (fallParam io) (curveParam io)
            (breakpointParam io) (rateParam io) (riseCvInput io) (fallCvInput io)
            (curveCvInput io) (breakpointCvInput io) (rateCvInput io)
            (cycleParam io) (syncInput io) (trigModeParam io) u1 u2 u3.

(** Two channels equal in every field but the seed; two panels equal in
    everything but the draws. *)
Definition sameButSeed (a b : Channel) : Prop :=
  withChaosMod 0 a = withChaosMod 0 b.

Definition sameButDraws (x y : SlopeIO) : Prop :=
  withDraws 0 0 0 x = withDraws 0 0 0 y.

(** Two ticks that agree on what the call for channel A reads, the draws
    apart; a tick whose chaos amount for A is 0; two module states that
    agree on A, its seed apart. *)
Definition sameSideAButDraws (t1 t2 : Tick) : Prop :=
  sampleTime t1 = sampleTime t2 /\ sameButDraws (ioA t1) (ioA t2) /\
  freezeAButton t1 = freezeAButton t2 /\ freezeACv t1 = freezeACv t2 /\
  chaosAParam t1 = chaosAParam t2 /\ chaosACv t1 = chaosACv t2.

Definition chaosOffA (t : Tick) : Prop :=
  chaosAmountOf (chaosAParam t) (chaosACv t) <= 0.

Definition sameStateAButSeed (m1 m2 : Matho) : Prop :=
  sameButSeed (slopeA m1) (slopeA m2) /\ freezeAState m1 = freezeAState m2 /\
  prevFreezeAButton m1 = prevFreezeAButton m2 /\ currentTime m1 = currentTime m2.

(** Two ticks, and two module states, that agree on everything the call of
    [processSlope] for channel A reads. *)
Definition sameSideA (t1 t2 : Tick) : Prop :=
  sampleTime t1 = sampleTime t2 /\ ioA t1 = ioA t2 /\
  freezeAButton t1 = freezeAButton t2 /\ freezeACv t1 = freezeACv t2 /\
  chaosAParam t1 = chaosAParam t2 /\ chaosACv t1 = chaosACv t2.

Definition sameStateA (m1 m2 : Matho) : Prop :=
  slopeA m1 = slopeA m2 /\ freezeAState m1 = freezeAState m2 /\
  prevFreezeAButton m1 = prevFreezeAButton m2 /\ currentTime m1 = currentTime m2.

(** * Comparally: the window comparator (src/src/Comparally.cpp)

    The lights are written through [setBrightnessSmooth] and read nowhere;
    they are left out. *)

Module Comparally.

(** [hi], [win], [lo] of one channel. *)
Record Gates : Type := mkGates { hi : bool; win : bool; lo : bool }.

(** What [runChannel] reads for one channel, with the channel's input jack. *)
Record ChannelIO : Type := mkChannelIO {
  inPort : Port;
  shiftParam : R;
  sizeParam : R;
  shiftCv : Port;
  sizeCv : Port
}.

(** [const float H = 0.1f] *)
Definition H : R := 0.1.

Definition center (io : ChannelIO) : R :=
  shiftParam io + getVoltage (shiftCv io).

(** [std::max(0.0001f, x)] is [(0.0001f < x) ? x : 0.0001f]. *)
Definition size (io : ChannelIO) : R :=
  let x := sizeParam io + getVoltage (sizeCv io) in
  if Rltb 0.0001 x then x else 0.0001.

Definition hiEdge (io : ChannelIO) : R := center io + 0.5 * size io.
Definition loEdge (io : ChannelIO) : R := center io - 0.5 * size io.

(** The lambda of lines 221-248, on the three flags it receives by
    reference. *)
Definition runChannel (inp : R) (io : ChannelIO) (g : Gates) : Gates :=
  if Rgtb inp (hiEdge io + H) then mkGates true false false
  else if Rltb inp (loEdge io - H) then mkGates false false true
  else if (hi g && Rleb inp (hiEdge io - H))
          || (lo g && Rgeb inp (loEdge io + H))
          || (negb (win g) && Rgeb inp (loEdge io + H)
              && Rleb inp (hiEdge io - H))
       then mkGates false true false
       else g.

Record State : Type := mkState {
  gatesA : Gates;
  gatesB : Gates;
  gatesC : Gates;
  gatesD : Gates;
  abFlipFlop : bool;
  cdFlipFlop : bool;
  abXorPrevious : bool;
  cdXorPrevious : bool
}.

Record Tick : Type := mkTick {
  panelA : ChannelIO;
  panelB : ChannelIO;
  panelC : ChannelIO;
  panelD : ChannelIO
}.

(** [b ? 10.f : 0.f] *)
Definition gate (b : bool) : R := if b then 10 else 0.

Record Outputs : Type := mkOutputs {
  A_HI_OUTPUT : R; A_WIN_OUTPUT : R; A_LO_OUTPUT : R;
  B_HI_OUTPUT : R; B_WIN_OUTPUT : R; B_LO_OUTPUT : R;
  C_HI_OUTPUT : R; C_WIN_OUTPUT : R; C_LO_OUTPUT : R;
  D_HI_OUTPUT : R; D_WIN_OUTPUT : R; D_LO_OUTPUT : R;
  AB_AND_OUTPUT : R; AB_OR_OUTPUT : R; AB_XOR_OUTPUT : R; AB_FF_OUTPUT : R;
  CD_AND_OUTPUT : R; CD_OR_OUTPUT : R; CD_XOR_OUTPUT : R; CD_FF_OUTPUT : R;
  PAIRS_AND_OUTPUT : R; PAIRS_OR_OUTPUT : R; PAIRS_XOR_OUTPUT : R
}.

(** Lines 215-219: the inputs, each unplugged jack taking the input of the
    channel before it. *)
Definition inA (t : Tick) : R := getVoltage (inPort (panelA t)).
Definition inB (t : Tick) : R :=
  if isConnected (inPort (panelB t)) then getVoltage (inPort (panelB t)) else inA t.
Definition inC (t : Tick) : R :=
  if isConnected (inPort (panelC t)) then getVoltage (inPort (panelC t)) else inB t.
Definition inD (t : Tick) : R :=
  if isConnected (inPort (panelD t)) then getVoltage (inPort (panelD t)) else inC t.

(** [if (x && !previous) ff = !ff;] *)
Definition flip (x previous ff : bool) : bool :=
  if x && negb previous then negb ff else ff.

Definition process (t : Tick) (s : State) : State * Outputs :=
  let a := runChannel (inA t) (panelA t) (gatesA s) in
  let b := runChannel (inB t) (panelB t) (gatesB s) in
  let c := runChannel (inC t) (panelC t) (gatesC s) in
  let d := runChannel (inD t) (panelD t) (gatesD s) in
  let abAnd := win a && win b in
  let abOr := win a || win b in
  let abXor := xorb (win a) (win b) in
  let abFF := flip abXor (abXorPrevious s) (abFlipFlop s) in
  let cdAnd := win c && win d in
  let cdOr := win c || win d in
  let cdXor := xorb (win c) (win d) in
  let cdFF := flip cdXor (cdXorPrevious s) (cdFlipFlop s) in
  let abActive := abAnd || abOr || abXor in
  let cdActive := cdAnd || cdOr || cdXor in
  let pairsAnd := abActive && cdActive in
  let pairsOr := abActive || cdActive in
  let pairsXor := xorb abActive cdActive in
  (mkState a b c d abFF cdFF abXor cdXor,
   mkOutputs (gate (hi a)) (gate (win a)) (gate (lo a))
             (gate (hi b)) (gate (win b)) (gate (lo b))
             (gate (hi c)) (gate (win c)) (gate (lo c))
             (gate (hi d)) (gate (win d)) (gate (lo d))
             (gate abAnd) (gate abOr) (gate abXor) (gate abFF)
             (gate cdAnd) (gate cdOr) (gate cdXor) (gate cdFF)
             (gate pairsAnd) (gate pairsOr) (gate pairsXor)).

(** The member initialisers of lines 110-120. *)
Definition init : State :=
  mkState (mkGates false false false) (mkGates false false false)
          (mkGates false false false) (mkGates false false false)
          false false false false.

Definition step (t : Tick) (s : State) : State := fst (process t s).

Fixpoint run (ts : list Tick) (s : State) : State :=
  match ts with
  | [] => s
  | t :: ts' => run ts' (step t s)
  end.

(** At most one of the three flags is set. *)
Definition exclusive (g : Gates) : Prop :=
  (hi g = true -> win g = false /\ lo g = false) /\
  (win g = true -> lo g = false).

(** The A+B XOR of each tick of a run, first tick first. *)
Fixpoint abXorTrace (ts : list Tick) (s : State) : list bool :=
  match ts with
  | [] => []
  | t :: ts' => abXorPrevious (step t s) :: abXorTrace ts' (step t s)
  end.

(** How often a sequence of levels goes from low to high, after [previous]. *)
Fixpoint risingEdges (previous : bool) (levels : list bool) : nat :=
  match levels with
  | [] => 0
  | x :: rest =>
      (if x && negb previous then 1 else 0)%nat + risingEdges x rest
  end.

(** Two channels with the same window. *)
Definition sameWindow (x y : ChannelIO) : Prop :=
  center x = center y /\ size x = size y.

(** The input jacks of B, C and D are unplugged and their windows are the
    window of A. *)
Definition followsA (t : Tick) : Prop :=
  isConnected (inPort (panelB t)) = false /\
  isConnected (inPort (panelC t)) = false /\
  isConnected (inPort (panelD t)) = false /\
  sameWindow (panelA t) (panelB t) /\
  sameWindow (panelA t) (panelC t) /\
  sameWindow (panelA t) (panelD t).

(** A channel with the given input voltage and knobs, no CV cable. *)
Definition knobs (v shift width : R) : ChannelIO :=
  mkChannelIO (mkPort true v) shift width (mkPort false 0) (mkPort false 0).

(** The same with the input jack unplugged. *)
Definition unpatched (shift width : R) : ChannelIO :=
  mkChannelIO (mkPort false 0) shift width (mkPort false 0) (mkPort false 0).

End Comparally.

(** * Properties *)

(** ** Comparisons, clamp and pow *)

Section Comparisons.
Variables a b : R.

Lemma Rgtb_true_iff : Rgtb a b = true <-> b < a.
Proof. unfold Rgtb; destruct (Rlt_dec b a); split; intros; try easy; lra. Qed.
Lemma Rgtb_false_iff : Rgtb a b = false <-> a <= b.
Proof. unfold Rgtb; destruct (Rlt_dec b a); split; intros; try easy; lra. Qed.
Lemma Rltb_true_iff : Rltb a b = true <-> a < b.
Proof. unfold Rltb; destruct (Rlt_dec a b); split; intros; try easy; lra. Qed.
Lemma Rltb_false_iff : Rltb a b = false <-> b <= a.
Proof. unfold Rltb; destruct (Rlt_dec a b); split; intros; try easy; lra. Qed.
Lemma Rgeb_true_iff : Rgeb a b = true <-> b <= a.
Proof. unfold Rgeb; destruct (Rle_dec b a); split; intros; try easy; lra. Qed.
Lemma Rgeb_false_iff : Rgeb a b = false <-> a < b.
Proof. unfold Rgeb; destruct (Rle_dec b a); split; intros; try easy; lra. Qed.
Lemma Rleb_true_iff : Rleb a b = true <-> a <= b.
Proof. unfold Rleb; destruct (Rle_dec a b); split; intros; try easy; lra. Qed.
Lemma Rleb_false_iff : Rleb a b = false <-> b < a.
Proof. unfold Rleb; destruct (Rle_dec a b); split; intros; try easy; lra. Qed.
Lemma Rneqb_true_iff : Rneqb a b = true <-> a <> b.
Proof. unfold Rneqb; destruct (Req_dec_T a b); split; intros; try easy; lra. Qed.
Lemma Rneqb_false_iff : Rneqb a b = false <-> a = b.
Proof. unfold Rneqb; destruct (Req_dec_T a b); split; intros; try easy; lra. Qed.
End Comparisons.

(** Decide every comparison of the goal that linear arithmetic settles. *)
Ltac Rbool_step :=
  match goal with
  | |- context [Rgtb ?x ?y] =>
      first [ rewrite (proj2 (Rgtb_true_iff x y)) by lra
            | rewrite (proj2 (Rgtb_false_iff x y)) by lra ]
  | |- context [Rltb ?x ?y] =>
      first [ rewrite (proj2 (Rltb_true_iff x y)) by lra
            | rewrite (proj2 (Rltb_false_iff x y)) by lra ]
  | |- context [Rgeb ?x ?y] =>
      first [ rewrite (proj2 (Rgeb_true_iff x y)) by lra
            | rewrite (proj2 (Rgeb_false_iff x y)) by lra ]
  | |- context [Rleb ?x ?y] =>
      first [ rewrite (proj2 (Rleb_true_iff x y)) by lra
            | rewrite (proj2 (Rleb_false_iff x y)) by lra ]
  | |- context [Rneqb ?x ?y] =>
      first [ rewrite (proj2 (Rneqb_true_iff x y)) by lra
            | rewrite (proj2 (Rneqb_false_iff x y)) by lra ]
  end.
Ltac Rbool := repeat Rbool_step.

Lemma clamp_inside (x a b : R) : a <= x <= b -> clamp x a b = x.
Proof.
  intros [Ha Hb]. unfold clamp.
  rewrite Rmin_left by lra. now rewrite Rmax_left by lra.
Qed.

Lemma clamp_below (x a b : R) : x <= a -> a <= b -> clamp x a b = a.
Proof.
  intros Hx Hab. unfold clamp.
  apply Rmax_right. apply Rle_trans with x; [apply Rmin_l | exact Hx].
Qed.

Lemma clamp_above (x a b : R) : b <= x -> a <= b -> clamp x a b = b.
Proof.
  intros Hx Hab. unfold clamp.
  rewrite Rmin_right by lra. now rewrite Rmax_left by lra.
Qed.

Lemma clamp_bounds (x a b : R) : a <= b -> a <= clamp x a b <= b.
Proof.
  intros Hab. unfold clamp. split.
  - apply Rmax_r.
  - apply Rmax_lub; [apply Rmin_r | exact Hab].
Qed.

Lemma powf_zero_base (y : R) : 0 < y -> powf 0 y = 0.
Proof.
  intros Hy. unfold powf.
  destruct (Req_dec_T y 0); [lra|].
  destruct (Rle_dec 0 0); [reflexivity | lra].
Qed.

Lemma powf_one_base (y : R) : powf 1 y = 1.
Proof.
  unfold powf.
  destruct (Req_dec_T y 0); [reflexivity|].
  destruct (Rle_dec 1 0); [lra|].
  unfold Rpower. rewrite ln_1, Rmult_0_r. apply exp_0.
Qed.

Lemma powf_square (x : R) : 0 <= x -> powf x 2.0 = x * x.
Proof.
  intros Hx. unfold powf.
  destruct (Req_dec_T 2.0 0); [lra|].
  destruct (Rle_dec x 0).
  - assert (x = 0) by lra. subst x. lra.
  - replace 2.0 with (1 + 1) by lra.
    rewrite Rpower_plus, Rpower_1 by lra. reflexivity.
Qed.

Lemma Rpower_unit_interval (x y : R) :
  0 < x <= 1 -> 0 <= y -> 0 < Rpower x y <= 1.
Proof.
  intros [Hx0 Hx1] Hy. unfold Rpower. split; [apply exp_pos|].
  rewrite <- exp_0.
  assert (Hln : ln x <= 0).
  { rewrite <- ln_1. destruct Hx1 as [Hlt | ->]; [|lra].
    left. now apply ln_increasing. }
  destruct (Rle_lt_or_eq_dec _ _ (Rmult_le_compat_l y _ _ Hy Hln)) as [Hlt | Heq].
  - left. apply exp_increasing. lra.
  - right. f_equal. lra.
Qed.

Lemma powf_unit_interval (x y : R) :
  0 <= x <= 1 -> 0 <= y -> 0 <= powf x y <= 1.
Proof.
  intros Hx Hy. unfold powf.
  destruct (Req_dec_T y 0); [lra|].
  destruct (Rle_dec x 0); [lra|].
  destruct (Rpower_unit_interval x y); lra.
Qed.

Lemma powf_pos (x y : R) : 0 < x -> 0 < powf x y.
Proof.
  intros Hx. unfold powf.
  destruct (Req_dec_T y 0); [lra|].
  destruct (Rle_dec x 0); [lra|].
  apply exp_pos.
Qed.

Lemma powf_lt_one (x y : R) : 0 <= x < 1 -> 0 < y -> powf x y < 1.
Proof.
  intros [Hx0 Hx1] Hy. unfold powf.
  destruct (Req_dec_T y 0); [lra|].
  destruct (Rle_dec x 0); [lra|].
  unfold Rpower. rewrite <- exp_0. apply exp_increasing.
  assert (ln x < 0) by (rewrite <- ln_1; apply ln_increasing; lra).
  nra.
Qed.

(** ** The curve shaper *)

Lemma applyCurve_zero (c : R) : applyCurve 0 c = 0.
Proof.
  unfold applyCurve.
  destruct (Rltb c 0) eqn:Hneg.
  - apply Rltb_true_iff in Hneg. apply powf_zero_base. lra.
  - destruct (Rgtb c 0) eqn:Hpos; [|reflexivity].
    rewrite Rminus_0_r, powf_one_base. lra.
Qed.

Lemma applyCurve_one (c : R) : applyCurve 1 c = 1.
Proof.
  unfold applyCurve.
  destruct (Rltb c 0) eqn:Hneg.
  - apply powf_one_base.
  - destruct (Rgtb c 0) eqn:Hpos; [|reflexivity].
    apply Rgtb_true_iff in Hpos.
    replace (1 - 1) with 0 by lra. rewrite powf_zero_base; lra.
Qed.

Lemma applyCurve_unit_interval (p c : R) :
  0 <= p <= 1 -> 0 <= applyCurve p c <= 1.
Proof.
  intros Hp. unfold applyCurve.
  destruct (Rltb c 0) eqn:Hneg.
  - apply Rltb_true_iff in Hneg. apply powf_unit_interval; lra.
  - destruct (Rgtb c 0) eqn:Hpos; [|exact Hp].
    apply Rgtb_true_iff in Hpos.
    destruct (powf_unit_interval (1 - p) (1 + c * 8)); lra.
Qed.

Lemma applyCurve_pos (p c : R) : 0 < p <= 1 -> 0 < applyCurve p c.
Proof.
  intros Hp. unfold applyCurve.
  destruct (Rltb c 0) eqn:Hneg.
  - apply powf_pos; lra.
  - destruct (Rgtb c 0) eqn:Hpos; [|lra].
    apply Rgtb_true_iff in Hpos.
    assert (powf (1 - p) (1 + c * 8) < 1) by (apply powf_lt_one; lra).
    lra.
Qed.

Lemma rawPhaseAt_applyCurve (c p : R) : rawPhaseAt c p = applyCurve p c.
Proof.
  unfold rawPhaseAt. destruct (Rneqb c 0) eqn:Hc; [reflexivity|].
  apply Rneqb_false_iff in Hc. subst c. unfold applyCurve. now Rbool.
Qed.

Lemma slopeValueAt_unit_interval (c : R) (r : bool) (p : R) :
  0 <= p <= 1 -> 0 <= slopeValueAt c r p <= 1.
Proof.
  intros Hp. unfold slopeValueAt. rewrite rawPhaseAt_applyCurve.
  pose proof (applyCurve_unit_interval p c Hp). destruct r; lra.
Qed.

(** ** Stage times *)

Lemma stageTime_bounds io chaosAmount ch knob :
  0.001 <= stageTime io chaosAmount ch knob <= 20.0.
Proof. unfold stageTime. apply clamp_bounds. lra. Qed.

Lemma envelopeTimeOf_pos io chaosAmount ch :
  0 < envelopeTimeOf io chaosAmount ch.
Proof.
  unfold envelopeTimeOf, riseTimeOf, fallTimeOf.
  pose proof (stageTime_bounds io chaosAmount ch (riseParamValue io)) as Hr.
  pose proof (stageTime_bounds io chaosAmount ch (fallParamValue io)) as Hf.
  set (r := stageTime io chaosAmount ch (riseParamValue io)) in *.
  set (f := stageTime io chaosAmount ch (fallParamValue io)) in *.
  assert (Hstage : 0 < (if rising ch then r else f)) by (destruct (rising ch); lra).
  destruct (syncEnabled io && Rgtb (syncPeriod ch) 0) eqn:Hs; [|exact Hstage].
  apply andb_true_iff in Hs. destruct Hs as [_ Hs]. apply Rgtb_true_iff in Hs.
  apply Rmult_lt_0_compat; [exact Hstage|].
  apply Rdiv_lt_0_compat; lra.
Qed.

Lemma phase_step_pos io deltaTime chaosAmount ch :
  0 < deltaTime -> 0 < deltaTime / envelopeTimeOf io chaosAmount ch.
Proof. intros. apply Rdiv_lt_0_compat; [assumption | apply envelopeTimeOf_pos]. Qed.

(** ** The trigger block *)

Lemma voltage_needs_cable (p : Port) (v : R) :
  0 <= v -> Rgtb (getVoltage p) v = true -> isConnected p = true.
Proof.
  unfold getVoltage, isConnected. intros Hv H.
  destruct (plugged p); [reflexivity|].
  apply Rgtb_true_iff in H. lra.
Qed.

Lemma currentTrigger_connected io :
  currentTrigger io = true -> isConnected (trigInput io) = true.
Proof. apply voltage_needs_cable. lra. Qed.

Lemma currentTrigger_no_cable io :
  isConnected (trigInput io) = false -> currentTrigger io = false.
Proof.
  intros H. destruct (currentTrigger io) eqn:E; [|reflexivity].
  apply currentTrigger_connected in E. congruence.
Qed.

Lemma triggerBlock_no_cable io ch :
  isConnected (trigInput io) = false ->
  triggerBlock io ch = resetNeutral ch.
Proof.
  intros H. unfold triggerBlock.
  rewrite (currentTrigger_no_cable io H), H. reflexivity.
Qed.

Lemma triggerBlock_edge io ch :
  triggerEdge io ch = true ->
  triggerBlock io ch =
  withPrevTrigger true
    (if triggerAccepted (trigModeParam io) ch
     then restartCycle (newChaos (uniformTrigger io)) ch else ch).
Proof.
  unfold triggerEdge. intros H. apply andb_true_iff in H. destruct H as [Hc Hp].
  unfold triggerBlock. rewrite (currentTrigger_connected io Hc). simpl.
  rewrite Hc, Hp. reflexivity.
Qed.

Lemma triggerBlock_quiet io ch :
  isConnected (trigInput io) = true ->
  triggerEdge io ch = false ->
  triggerBlock io ch = withPrevTrigger (currentTrigger io) ch.
Proof.
  unfold triggerEdge, triggerBlock. intros Hc He. rewrite Hc. simpl.
  now rewrite He.
Qed.

(** ** The sync block *)

Lemma currentSync_connected io :
  currentSync io = true -> syncEnabled io = true.
Proof. apply voltage_needs_cable. lra. Qed.

Lemma syncBlock_edge io now ch :
  syncEdge io ch = true ->
  syncBlock io now ch =
  withPrevSync true
    (restartCycle (newChaos (uniformSync io))
       (withLastSyncTime now
          (if Rgtb (lastSyncTime ch) 0
           then withSyncPeriod (clamp (now - lastSyncTime ch) 0.01 10.0) ch
           else ch))).
Proof.
  unfold syncEdge. intros H.
  apply andb_true_iff in H. destruct H as [H Hp].
  apply andb_true_iff in H. destruct H as [He Hc].
  unfold syncBlock. unfold syncEnabled in He. rewrite He. simpl.
  unfold syncEnabled. rewrite He, Hc, Hp. reflexivity.
Qed.

Lemma syncBlock_quiet io now ch :
  syncEdge io ch = false ->
  syncBlock io now ch = withPrevSync (currentSync io) ch.
Proof.
  unfold syncEdge, syncBlock, syncEnabled. intros H.
  destruct (isConnected (syncInput io)) eqn:He; simpl in *.
  - rewrite H. reflexivity.
  - destruct ch; reflexivity.
Qed.

(** ** The advancing part of a tick, field by field *)

Section Advance.
Variables (io : SlopeIO) (deltaTime chaosAmount now : R) (ch : Channel).

Let p1 := advancedPhase io deltaTime chaosAmount ch.
Let ch' := advance io deltaTime chaosAmount now ch.

Lemma advance_phase :
  phase ch' =
  if Rgeb p1 1
  then (if rising ch then 0 else if autoRestart io then 0 else 1)
  else p1.
Proof.
  unfold ch', advance, publish, endOfCycle, breakpointCheck, advancePhase.
  fold p1.
  destruct (breakpointTriggered io (withPhase p1 ch)); simpl;
    destruct (Rgeb p1 1); simpl; try reflexivity;
    destruct (rising ch); simpl; try reflexivity;
    destruct (autoRestart io); reflexivity.
Qed.

Lemma advance_rising :
  rising ch' =
  if Rgeb p1 1
  then (if rising ch then false else autoRestart io)
  else rising ch.
Proof.
  unfold ch', advance, publish, endOfCycle, breakpointCheck, advancePhase.
  fold p1.
  destruct (breakpointTriggered io (withPhase p1 ch)); simpl;
    destruct (Rgeb p1 1); simpl; try reflexivity;
    destruct (rising ch) eqn:Hr; simpl; try reflexivity;
    destruct (autoRestart io); simpl; auto.
Qed.

Lemma advance_value :
  value ch' = slopeValueAt (curveOf io chaosAmount ch) (rising ch') (phase ch').
Proof. reflexivity. Qed.

Lemma advance_derivative :
  derivative ch' =
  (value ch'
   - (if rising ch'
      then rawPhaseAt (curveOf io chaosAmount ch) (phase ch') - deltaTime / now
      else 1.0 - (rawPhaseAt (curveOf io chaosAmount ch) (phase ch')
                  - deltaTime / now))) / deltaTime.
Proof. reflexivity. Qed.

Lemma advance_integral :
  integral ch' = integral ch + value ch' * deltaTime.
Proof.
  unfold ch', advance, publish, endOfCycle, breakpointCheck, advancePhase.
  fold p1.
  destruct (breakpointTriggered io (withPhase p1 ch)); simpl;
    destruct (Rgeb p1 1); simpl; try reflexivity;
    destruct (rising ch); simpl; try reflexivity;
    destruct (autoRestart io); reflexivity.
Qed.

Lemma advance_endPulse : endPulse ch' = false.
Proof. reflexivity. Qed.

(** The fall stage completes in this tick. *)
Lemma fallCompletes_advancePhase :
  fallCompletes (advancePhase io deltaTime chaosAmount ch)
  = (Rgeb p1 1 && negb (rising ch))%bool.
Proof. reflexivity. Qed.

Lemma advance_endLight :
  endLight ch' =
  if fallCompletes (advancePhase io deltaTime chaosAmount ch) then 1.0
  else if endPulse ch then 1.0 else 0.0.
Proof.
  rewrite fallCompletes_advancePhase.
  unfold ch', advance, publish, endOfCycle, breakpointCheck, advancePhase.
  fold p1.
  destruct (breakpointTriggered io (withPhase p1 ch)); simpl;
    destruct (Rgeb p1 1); simpl; try reflexivity;
    destruct (rising ch); simpl; try reflexivity;
    destruct (autoRestart io); reflexivity.
Qed.

Lemma advance_breakpointPulse :
  breakpointPulse ch' =
  if fallCompletes (advancePhase io deltaTime chaosAmount ch) then false
  else breakpointPulse ch
       || Rgeb (cyclePhase (advancePhase io deltaTime chaosAmount ch))
               (breakpointPhase io).
Proof.
  rewrite fallCompletes_advancePhase.
  unfold ch', advance, publish, endOfCycle, breakpointCheck,
    breakpointTriggered, advancePhase.
  fold p1. simpl.
  destruct (Rgeb (cyclePhase (withPhase p1 ch)) (breakpointPhase io));
    destruct (breakpointPulse ch) eqn:Hb; simpl;
    destruct (Rgeb p1 1); simpl; rewrite ?Hb; try reflexivity;
    destruct (rising ch); simpl; rewrite ?Hb; try reflexivity;
    destruct (autoRestart io); reflexivity.
Qed.

Lemma advance_sync_fields :
  prevTrigger ch' = prevTrigger ch /\ prevSync ch' = prevSync ch /\
  lastSyncTime ch' = lastSyncTime ch /\ syncPeriod ch' = syncPeriod ch.
Proof.
  unfold ch', advance, publish, endOfCycle, breakpointCheck, advancePhase.
  fold p1.
  destruct (breakpointTriggered io (withPhase p1 ch)); simpl;
    destruct (Rgeb p1 1); simpl; auto;
    destruct (rising ch); simpl; auto;
    destruct (autoRestart io); simpl; auto.
Qed.

Lemma advance_phase_unit_interval :
  0 <= phase ch -> 0 < deltaTime -> 0 <= phase ch' <= 1.
Proof.
  intros Hp Hd. rewrite advance_phase.
  pose proof (phase_step_pos io deltaTime chaosAmount ch Hd) as Hs.
  assert (Hp1 : 0 < p1) by (unfold p1, advancedPhase; lra).
  destruct (Rgeb p1 1) eqn:Hw.
  - destruct (rising ch); [lra|]. destruct (autoRestart io); lra.
  - apply Rgeb_false_iff in Hw. lra.
Qed.

Lemma advance_value_unit_interval :
  0 <= phase ch -> 0 < deltaTime -> 0 <= value ch' <= 1.
Proof.
  intros Hp Hd. rewrite advance_value.
  apply slopeValueAt_unit_interval. now apply advance_phase_unit_interval.
Qed.

(** Line 580 in closed form: the difference it divides is [deltaTime / now]
    whatever the value was a tick earlier. *)
Lemma advance_derivative_closed :
  deltaTime <> 0 ->
  derivative ch' = (if rising ch' then 1 else -1) / now.
Proof.
  intros Hd. rewrite advance_derivative, advance_value.
  unfold slopeValueAt.
  set (raw := rawPhaseAt (curveOf io chaosAmount ch) (phase ch')).
  unfold Rdiv.
  destruct (rising ch').
  - replace (raw - (raw - deltaTime * / now)) with (deltaTime * / now) by lra.
    rewrite Rmult_comm, <- Rmult_assoc, Rinv_l by exact Hd. lra.
  - replace (1.0 - raw - (1.0 - (raw - deltaTime * / now)))
      with (deltaTime * - / now) by lra.
    rewrite Rmult_comm, <- Rmult_assoc, Rinv_l by exact Hd. lra.
Qed.

End Advance.

(** ** A whole tick of a channel *)

Lemma triggerBlock_sync_fields io ch :
  prevSync (triggerBlock io ch) = prevSync ch /\
  lastSyncTime (triggerBlock io ch) = lastSyncTime ch /\
  syncPeriod (triggerBlock io ch) = syncPeriod ch.
Proof.
  unfold triggerBlock.
  destruct (negb (isConnected (trigInput io))); simpl;
    destruct (currentTrigger io); simpl; auto.
  - destruct (triggerAccepted (trigModeParam io) (resetNeutral ch)); simpl; auto.
  - destruct (prevTrigger ch); simpl; auto.
    destruct (triggerAccepted (trigModeParam io) ch); simpl; auto.
Qed.

Lemma triggerBlock_endPulse io ch :
  endPulse (triggerBlock io ch) = (isConnected (trigInput io) && endPulse ch)%bool.
Proof.
  unfold triggerBlock.
  destruct (isConnected (trigInput io)); simpl;
    destruct (currentTrigger io); simpl; auto.
  - destruct (prevTrigger ch); simpl; auto.
    destruct (triggerAccepted (trigModeParam io) ch); simpl; auto.
  - destruct (triggerAccepted (trigModeParam io) (resetNeutral ch)); simpl; auto.
Qed.

Lemma syncBlock_endPulse io now ch :
  endPulse (syncBlock io now ch) = endPulse ch.
Proof.
  destruct (syncEdge io ch) eqn:He.
  - rewrite syncBlock_edge by exact He. simpl.
    destruct (Rgtb (lastSyncTime ch) 0); reflexivity.
  - rewrite syncBlock_quiet by exact He. reflexivity.
Qed.

Lemma processSlope_endPulse io deltaTime freeze chaosAmount now ch :
  endPulse (processSlope io deltaTime freeze chaosAmount now ch)
  = (freeze && isConnected (trigInput io) && endPulse ch)%bool.
Proof.
  unfold processSlope. destruct freeze; cbn [andb].
  - now rewrite syncBlock_endPulse, triggerBlock_endPulse.
  - reflexivity.
Qed.

Lemma triggerBlock_inRange io ch : inRange ch -> inRange (triggerBlock io ch).
Proof.
  unfold inRange, triggerBlock. intros H.
  destruct (negb (isConnected (trigInput io))); simpl;
    destruct (currentTrigger io); simpl; try lra.
  - destruct (triggerAccepted (trigModeParam io) (resetNeutral ch)); simpl; lra.
  - destruct (prevTrigger ch); simpl; try lra.
    destruct (triggerAccepted (trigModeParam io) ch); simpl; lra.
Qed.

Lemma syncBlock_inRange io now ch : inRange ch -> inRange (syncBlock io now ch).
Proof.
  unfold inRange. intros H.
  destruct (syncEdge io ch) eqn:He.
  - rewrite syncBlock_edge by exact He. simpl. lra.
  - rewrite syncBlock_quiet by exact He. exact H.
Qed.

Lemma processSlope_inRange io deltaTime freeze chaosAmount now ch :
  0 < deltaTime -> inRange ch ->
  inRange (processSlope io deltaTime freeze chaosAmount now ch).
Proof.
  intros Hd H.
  pose proof (syncBlock_inRange io now _ (triggerBlock_inRange io ch H)) as H1.
  unfold processSlope. destruct freeze; [exact H1|].
  destruct H1 as [[Hp _] _]. split.
  - now apply advance_phase_unit_interval.
  - now apply advance_value_unit_interval.
Qed.

(** ** Runs of the module *)

Lemma run_app ts1 ts2 m : run (ts1 ++ ts2) m = run ts2 (run ts1 m).
Proof. revert m. induction ts1 as [|t ts1 IH]; intros m; simpl; auto. Qed.

Lemma currentTime_step t m : currentTime (step t m) = currentTime m + sampleTime t.
Proof. reflexivity. Qed.

Lemma slopeA_step t m :
  slopeA (step t m) =
  processSlope (ioA t) (sampleTime t) (frozenA t m)
    (chaosAmountOf (chaosAParam t) (chaosACv t))
    (currentTime m + sampleTime t) (slopeA m).
Proof. reflexivity. Qed.

Lemma slopeB_step t m :
  slopeB (step t m) =
  processSlope (ioB t) (sampleTime t) (frozenB t m)
    (chaosAmountOf (chaosBParam t) (chaosBCv t))
    (currentTime m + sampleTime t) (slopeB m).
Proof. reflexivity. Qed.

Lemma slopeOf_step s t m :
  slopeOf s (step t m) =
  processSlope (ioOf s t) (sampleTime t) (frozenOf s t m) (chaosOf s t)
    (currentTime m + sampleTime t) (slopeOf s m).
Proof. destruct s; reflexivity. Qed.

(** An invariant of both channels that every call of [processSlope] keeps is
    kept by every run. *)
Lemma run_invariant (P : Channel -> Prop) (ok : Tick -> Prop) :
  (forall t fr ca now io ch, ok t -> P ch ->
      P (processSlope io (sampleTime t) fr ca now ch)) ->
  forall ts m, Forall ok ts -> P (slopeA m) -> P (slopeB m) ->
    P (slopeA (run ts m)) /\ P (slopeB (run ts m)).
Proof.
  intros Hstep ts. induction ts as [|t ts IH]; intros m Hok HA HB; simpl.
  - auto.
  - inversion Hok as [|? ? Ht Hts]; subst.
    apply IH; [exact Hts | rewrite slopeA_step | rewrite slopeB_step];
      now apply Hstep.
Qed.

(** ** The sample panel *)

Ltac fields_simpl :=
  cbn [panel tickA stageAt noCable cableAt getVoltage isConnected plugged cable
       trigInput riseParam fallParam curveParam breakpointParam rateParam
       riseCvInput fallCvInput curveCvInput breakpointCvInput rateCvInput
       cycleParam syncInput trigModeParam uniformTrigger uniformSync
       uniformCycle sampleTime ioA ioB freezeAButton freezeBButton freezeACv
       freezeBCv chaosAParam chaosBParam chaosACv chaosBCv mixParam
       phase value derivative integral rising endPulse breakpointPulse
       prevTrigger chaosMod prevSync lastSyncTime syncPeriod
       activeLight endLight breakpointLight
       withPhase withPrevTrigger withPrevSync withSyncPeriod withLastSyncTime
       withBreakpointPulse restartCycle resetNeutral
       slopeA slopeB freezeAState freezeBState prevFreezeAButton
       prevFreezeBButton currentTime prevAValue prevBValue
       initMatho initChannel andb orb negb].

Section Panel.
Variables (trig sync : Port) (trigMode : Z) (cycle breakpoint : R).
Variable ch : Channel.

Let io := panel trig sync trigMode cycle breakpoint.

Lemma panel_stageTime : stageTime io 0 ch 0.5 = 1.
Proof.
  unfold stageTime, knobTime, rateOffset, io. fields_simpl. Rbool.
  rewrite clamp_inside; lra.
Qed.

Lemma panel_riseTime : riseTimeOf io 0 ch = 1.
Proof.
  unfold riseTimeOf, riseParamValue, io. fields_simpl.
  rewrite clamp_inside by lra.
  replace (0.5 + 0 * 0.1) with 0.5 by lra. apply panel_stageTime.
Qed.

Lemma panel_fallTime : fallTimeOf io 0 ch = 1.
Proof.
  unfold fallTimeOf, fallParamValue, io. fields_simpl.
  rewrite clamp_inside by lra.
  replace (0.5 + 0 * 0.1) with 0.5 by lra. apply panel_stageTime.
Qed.

Lemma panel_curve : curveOf io 0 ch = 0.
Proof.
  unfold curveOf, io. fields_simpl. Rbool. rewrite clamp_inside; lra.
Qed.

Lemma panel_breakpointPhase :
  0 <= breakpoint <= 0.9999 -> breakpointPhase io = breakpoint * 2.
Proof.
  intros H. unfold breakpointPhase, breakpointOf, io. fields_simpl.
  rewrite (clamp_inside (breakpoint + 0 * 0.1)) by lra.
  rewrite clamp_inside by lra. lra.
Qed.

Lemma panel_envelopeTime :
  isConnected sync = false -> envelopeTimeOf io 0 ch = 1.
Proof.
  intros Hs. unfold envelopeTimeOf. rewrite panel_riseTime, panel_fallTime.
  unfold syncEnabled, io. cbn [panel syncInput].
  rewrite Hs. simpl. now destruct (rising ch).
Qed.

Lemma panel_advancedPhase deltaTime :
  isConnected sync = false ->
  advancedPhase io deltaTime 0 ch = phase ch + deltaTime.
Proof.
  intros Hs. unfold advancedPhase. rewrite panel_envelopeTime by exact Hs. lra.
Qed.

End Panel.

Lemma rawPhaseAt_linear (p : R) : rawPhaseAt 0 p = p.
Proof. unfold rawPhaseAt. now Rbool. Qed.

Lemma slopeValueAt_linear (r : bool) (p : R) :
  slopeValueAt 0 r p = if r then p else 1 - p.
Proof. unfold slopeValueAt. rewrite rawPhaseAt_linear. destruct r; lra. Qed.

Lemma chaosAmountOf_off : chaosAmountOf 0 noCable = 0.
Proof. unfold chaosAmountOf. fields_simpl. rewrite clamp_inside; lra. Qed.

Lemma freezeStep_released (prev state : bool) :
  freezeStep 0 noCable prev state = state.
Proof. unfold freezeStep. fields_simpl. now Rbool. Qed.

Lemma freezeStep_pressed (state : bool) :
  freezeStep 1 noCable false state = negb state.
Proof. unfold freezeStep. fields_simpl. now Rbool. Qed.

Lemma slopeA_step_tickA io deltaTime button m :
  slopeA (step (tickA io deltaTime button) m) =
  processSlope io deltaTime
    (freezeStep button noCable (prevFreezeAButton m) (freezeAState m)) 0
    (currentTime m + deltaTime) (slopeA m).
Proof. rewrite slopeA_step. unfold frozenA. fields_simpl. now rewrite chaosAmountOf_off. Qed.

(** A running tick of the sample panel, trigger cable plugged and low, no
    sync cable: both edge blocks only store the levels. *)
Section QuietPanelTick.
Variables (trigMode : Z) (cycle breakpoint deltaTime now : R) (ch : Channel).

Let io := panel (cableAt 0) noCable trigMode cycle breakpoint.
Let ch' := processSlope io deltaTime false 0 now ch.

Lemma quiet_panel_edges :
  afterEdges io now ch = withPrevSync false (withPrevTrigger false ch).
Proof.
  unfold afterEdges.
  assert (Hc : currentTrigger io = false).
  { unfold currentTrigger, io. fields_simpl. now Rbool. }
  assert (Hs : currentSync io = false).
  { unfold currentSync, io. fields_simpl. now Rbool. }
  rewrite triggerBlock_quiet; [| reflexivity | unfold triggerEdge; now rewrite Hc].
  rewrite syncBlock_quiet; [| unfold syncEdge; now rewrite Hs, andb_false_r].
  now rewrite Hc, Hs.
Qed.

Lemma quiet_panel_phase :
  phase ch' =
  if Rgeb (phase ch + deltaTime) 1
  then (if rising ch then 0 else if Rgtb cycle 0.5 then 0 else 1)
  else phase ch + deltaTime.
Proof.
  unfold ch', processSlope. fold (afterEdges io now ch).
  rewrite quiet_panel_edges, advance_phase.
  unfold io. rewrite panel_advancedPhase by reflexivity.
  unfold autoRestart, syncEnabled. fields_simpl.
  now rewrite andb_true_r.
Qed.

Lemma quiet_panel_rising :
  rising ch' =
  if Rgeb (phase ch + deltaTime) 1
  then (if rising ch then false else Rgtb cycle 0.5)
  else rising ch.
Proof.
  unfold ch', processSlope. fold (afterEdges io now ch).
  rewrite quiet_panel_edges, advance_rising.
  unfold io. rewrite panel_advancedPhase by reflexivity.
  unfold autoRestart, syncEnabled. fields_simpl.
  now rewrite andb_true_r.
Qed.

Lemma quiet_panel_value :
  value ch' = if rising ch' then phase ch' else 1 - phase ch'.
Proof.
  unfold ch', processSlope. fold (afterEdges io now ch).
  rewrite advance_value. unfold io at 1. rewrite panel_curve.
  apply slopeValueAt_linear.
Qed.

Lemma quiet_panel_fallCompletes :
  completesFall io deltaTime false 0 now ch
  = (Rgeb (phase ch + deltaTime) 1 && negb (rising ch))%bool.
Proof.
  unfold completesFall. rewrite quiet_panel_edges, fallCompletes_advancePhase.
  unfold io. now rewrite panel_advancedPhase by reflexivity.
Qed.

End QuietPanelTick.

(** ** Initial state (C4) *)

(** C4.  The member initialisers give each channel phase 0 and value 0 with
    [rising = false], not [true]: the channel starts in the fall stage.  On
    a module whose trigger cable is plugged and low, the first running tick
    of 0.1 s therefore publishes the value 0.9 (9 V on the slope output)
    with no trigger ever received. *)
Theorem initial_state_is_falling :
  (forall uA uB : R,
      phase (slopeA (initMatho uA uB)) = 0 /\
      value (slopeA (initMatho uA uB)) = 0 /\
      rising (slopeA (initMatho uA uB)) = false /\
      phase (slopeB (initMatho uA uB)) = 0 /\
      value (slopeB (initMatho uA uB)) = 0 /\
      rising (slopeB (initMatho uA uB)) = false) /\
  (let t := tickA (panel (cableAt 0) noCable 0 0 0.5) 0.1 0 in
   let m := initMatho 0.5 0.5 in
   rising (slopeA (step t m)) = false /\
   value (slopeA (step t m)) = 0.9 /\
   A_SLOPE_OUTPUT (snd (process t m)) = 9).
Proof.
  split; [intros; repeat split|].
  cbv zeta.
  set (t := tickA (panel (cableAt 0) noCable 0 0 0.5) 0.1 0).
  set (m := initMatho 0.5 0.5).
  assert (Hstep : slopeA (step t m) =
                  processSlope (panel (cableAt 0) noCable 0 0 0.5) 0.1 false 0
                               (0 + 0.1) (initChannel 0.5)).
  { unfold t. rewrite slopeA_step_tickA, freezeStep_released. reflexivity. }
  assert (Hr : rising (slopeA (step t m)) = false).
  { rewrite Hstep, quiet_panel_rising. fields_simpl. now Rbool. }
  assert (Hp : phase (slopeA (step t m)) = 0.1).
  { rewrite Hstep, quiet_panel_phase. fields_simpl. Rbool. lra. }
  assert (Hv : value (slopeA (step t m)) = 0.9).
  { rewrite Hstep, quiet_panel_value. rewrite <- Hstep, Hr, Hp. lra. }
  repeat split; try assumption.
  change (value (slopeA (step t m)) * 10.0 = 9).
  rewrite Hv. lra.
Qed.

(** ** The end pulse (C1) *)

Lemma processSlope_keeps_endPulse_clear io deltaTime freeze chaosAmount now ch :
  endPulse ch = false ->
  endPulse (processSlope io deltaTime freeze chaosAmount now ch) = false.
Proof.
  intros H. rewrite processSlope_endPulse, H. apply andb_false_r.
Qed.

Lemma processSlope_endLight io deltaTime chaosAmount now ch :
  endLight (processSlope io deltaTime false chaosAmount now ch) =
  if completesFall io deltaTime false chaosAmount now ch then 1.0
  else if endPulse (afterEdges io now ch) then 1.0 else 0.0.
Proof. unfold processSlope, completesFall. apply advance_endLight. Qed.

Lemma trace_endOutputsLow ts m :
  endPulse (slopeA m) = false -> endPulse (slopeB m) = false ->
  Forall endOutputsLow (trace ts m).
Proof.
  revert m. induction ts as [|t ts IH]; intros m HA HB; simpl.
  - constructor.
  - assert (HA' : endPulse (slopeA (step t m)) = false)
      by (rewrite slopeA_step; now apply processSlope_keeps_endPulse_clear).
    assert (HB' : endPulse (slopeB (step t m)) = false)
      by (rewrite slopeB_step; now apply processSlope_keeps_endPulse_clear).
    constructor; [|now apply IH].
    unfold endOutputsLow, process, outputsOf; cbn [snd A_END_OUTPUT A_PULSE_OUTPUT
      B_END_OUTPUT B_PULSE_OUTPUT].
    rewrite slopeA_step in HA'. rewrite slopeB_step in HB'.
    rewrite HA', HB'. repeat split; lra.
Qed.

(** C1.  The code clears [endPulse] as the last statement of every running
    tick, before [process] reads it: from the initial state, after any
    sequence of ticks, [endPulse] of both channels is false and the End and
    Pulse outputs of every tick are at 0 V.  On a tick that completes the
    fall stage (phase 0.95 of the fall, 0.1 s tick, fall time 1 s) the end
    light is lit, the phase rests at 1 and the value at 0, and [endPulse] is
    false at the end of that tick too. *)
Theorem endPulse_never_published :
  (forall (uA uB : R) (ts : list Tick),
      endPulse (slopeA (run ts (initMatho uA uB))) = false /\
      endPulse (slopeB (run ts (initMatho uA uB))) = false /\
      Forall endOutputsLow (trace ts (initMatho uA uB))) /\
  (let io := panel (cableAt 0) noCable 0 0 0.5 in
   let ch := stageAt false 0.95 true in
   let ch' := processSlope io 0.1 false 0 3 ch in
   completesFall io 0.1 false 0 3 ch = true /\
   endLight ch' = 1 /\ phase ch' = 1 /\ value ch' = 0 /\
   endPulse ch' = false).
Proof.
  split.
  - intros uA uB ts.
    destruct (run_invariant (fun ch => endPulse ch = false) (fun _ => True))
      with (ts := ts) (m := initMatho uA uB) as [HA HB]; try reflexivity.
    + intros. now apply processSlope_keeps_endPulse_clear.
    + apply Forall_forall. trivial.
    + repeat split; try assumption. now apply trace_endOutputsLow.
  - cbv zeta.
    assert (Hc : completesFall (panel (cableAt 0) noCable 0 0 0.5) 0.1 false 0 3
                               (stageAt false 0.95 true) = true).
    { rewrite quiet_panel_fallCompletes. fields_simpl. now Rbool. }
    assert (Hr : rising (processSlope (panel (cableAt 0) noCable 0 0 0.5) 0.1
                                      false 0 3 (stageAt false 0.95 true)) = false).
    { rewrite quiet_panel_rising. fields_simpl. now Rbool. }
    assert (Hp : phase (processSlope (panel (cableAt 0) noCable 0 0 0.5) 0.1
                                     false 0 3 (stageAt false 0.95 true)) = 1).
    { rewrite quiet_panel_phase. fields_simpl. now Rbool. }
    repeat split.
    + exact Hc.
    + rewrite processSlope_endLight, Hc. lra.
    + exact Hp.
    + rewrite quiet_panel_value, Hr, Hp. lra.
Qed.

(** ** The derivative (C3) *)

(** C3.  On every running tick the published derivative is [1 / currentTime]
    in the rise stage and [-1 / currentTime] in the fall stage: line 580
    subtracts [deltaTime / currentTime] from the shaped phase of this tick
    and never reads the value of the previous tick. *)
Theorem derivative_is_clock_reciprocal
        (io : SlopeIO) (deltaTime chaosAmount now : R) (ch : Channel) :
  deltaTime <> 0 ->
  derivative (processSlope io deltaTime false chaosAmount now ch) =
  (if rising (processSlope io deltaTime false chaosAmount now ch)
   then 1 else -1) / now.
Proof. intros Hd. unfold processSlope. now apply advance_derivative_closed. Qed.

(** At the start of a rise (value 0), a 0.1 s tick at clock 2 s moves the
    value to 0.1: the backward difference is 1, the code publishes 0.5. *)
Lemma derivative_is_clock_reciprocal_witness :
  let io := panel (cableAt 0) noCable 0 0 0.5 in
  let ch := stageAt true 0 false in
  let ch' := processSlope io 0.1 false 0 2 ch in
  value ch = 0 /\ value ch' = 0.1 /\
  (value ch' - value ch) / 0.1 = 1 /\ derivative ch' = 0.5.
Proof.
  cbv zeta.
  assert (Hr : rising (processSlope (panel (cableAt 0) noCable 0 0 0.5) 0.1
                                    false 0 2 (stageAt true 0 false)) = true).
  { rewrite quiet_panel_rising. fields_simpl. now Rbool. }
  assert (Hp : phase (processSlope (panel (cableAt 0) noCable 0 0 0.5) 0.1
                                   false 0 2 (stageAt true 0 false)) = 0.1).
  { rewrite quiet_panel_phase. fields_simpl. Rbool. lra. }
  assert (Hv : value (processSlope (panel (cableAt 0) noCable 0 0 0.5) 0.1
                                   false 0 2 (stageAt true 0 false)) = 0.1).
  { rewrite quiet_panel_value, Hr, Hp. reflexivity. }
  assert (Hd : 0.1 <> 0) by lra.
  pose proof (derivative_is_clock_reciprocal
                (panel (cableAt 0) noCable 0 0 0.5) 0.1 0 2
                (stageAt true 0 false) Hd) as H.
  rewrite Hr in H. rewrite H, Hv. fields_simpl. repeat split; lra.
Defined.

(** [process] stores the value of the tick in [prevAValue], and nothing of
    the next tick depends on what was stored. *)
Lemma previous_value_is_never_read (t : Tick) (m : Matho) (x y : R) :
  prevAValue (step t m) = value (slopeA (step t m)) /\
  prevBValue (step t m) = value (slopeB (step t m)) /\
  slopeA (step t (mkMatho (slopeA m) (slopeB m) (freezeAState m) (freezeBState m)
                          (prevFreezeAButton m) (prevFreezeBButton m)
                          (currentTime m) x y))
  = slopeA (step t m) /\
  slopeB (step t (mkMatho (slopeA m) (slopeB m) (freezeAState m) (freezeBState m)
                          (prevFreezeAButton m) (prevFreezeBButton m)
                          (currentTime m) x y))
  = slopeB (step t m).
Proof. repeat split. Qed.

(** ** The trigger cable unplugged (C2) *)

Lemma afterEdges_no_cable io now ch :
  isConnected (trigInput io) = false -> neutral (afterEdges io now ch).
Proof.
  intros H. unfold afterEdges, neutral. rewrite triggerBlock_no_cable by exact H.
  destruct (syncEdge io (resetNeutral ch)) eqn:He.
  - rewrite syncBlock_edge by exact He. simpl.
    destruct (Rgtb (lastSyncTime ch) 0); simpl; repeat split.
  - rewrite syncBlock_quiet by exact He. simpl. repeat split.
Qed.

(** Frozen, the tick ends in the neutral state. *)
Lemma unplugged_frozen_tick_neutral io deltaTime chaosAmount now ch :
  isConnected (trigInput io) = false ->
  neutral (processSlope io deltaTime true chaosAmount now ch).
Proof. intros H. now apply afterEdges_no_cable. Qed.

(** C2.  With the trigger cable unplugged the reset runs first and, unless
    the channel is frozen, the rest of the tick then advances the channel
    from the neutral state: the tick ends with a positive value, the
    integral [value * deltaTime], and the phase past 0 (or the stage already
    turned to fall).  Only [prevTrigger] and [endPulse] end as in the
    neutral state. *)
Theorem unplugged_running_tick_not_neutral
        (io : SlopeIO) (deltaTime chaosAmount now : R) (ch : Channel) :
  isConnected (trigInput io) = false ->
  0 < deltaTime ->
  let ch' := processSlope io deltaTime false chaosAmount now ch in
  0 < value ch' /\
  integral ch' = value ch' * deltaTime /\
  (0 < phase ch' \/ rising ch' = false) /\
  prevTrigger ch' = false /\ endPulse ch' = false.
Proof.
  intros Hc Hd ch'.
  destruct (afterEdges_no_cable io now ch Hc)
    as (_ & _ & Hi & _ & _ & Hp & Hr & Ht).
  pose proof (phase_step_pos io deltaTime chaosAmount (afterEdges io now ch) Hd) as Hs.
  assert (Hphase : phase ch' =
                   if Rgeb (advancedPhase io deltaTime chaosAmount (afterEdges io now ch)) 1
                   then 0 else advancedPhase io deltaTime chaosAmount (afterEdges io now ch)).
  { unfold ch', processSlope. fold (afterEdges io now ch).
    rewrite advance_phase, Hr. reflexivity. }
  assert (Hrising : rising ch' =
                    negb (Rgeb (advancedPhase io deltaTime chaosAmount (afterEdges io now ch)) 1)).
  { unfold ch', processSlope. fold (afterEdges io now ch).
    rewrite advance_rising, Hr.
    now destruct (Rgeb (advancedPhase io deltaTime chaosAmount (afterEdges io now ch)) 1). }
  assert (Hvalue : value ch' =
                   slopeValueAt (curveOf io chaosAmount (afterEdges io now ch))
                                (rising ch') (phase ch')) by reflexivity.
  assert (Hint : integral ch' = value ch' * deltaTime).
  { unfold ch', processSlope. fold (afterEdges io now ch).
    rewrite advance_integral, Hi. lra. }
  assert (Hprev : prevTrigger ch' = false).
  { unfold ch', processSlope. fold (afterEdges io now ch).
    destruct (advance_sync_fields io deltaTime chaosAmount now (afterEdges io now ch))
      as [-> _]. exact Ht. }
  unfold advancedPhase in Hphase, Hrising. rewrite Hp in Hphase, Hrising.
  set (d := deltaTime / envelopeTimeOf io chaosAmount (afterEdges io now ch)) in *.
  destruct (Rgeb (0 + d) 1) eqn:Hw.
  - cbn [negb] in Hrising. repeat split; auto.
    rewrite Hvalue, Hrising, Hphase. unfold slopeValueAt.
    rewrite rawPhaseAt_applyCurve, applyCurve_zero. lra.
  - cbn [negb] in Hrising. apply Rgeb_false_iff in Hw. repeat split; auto.
    + rewrite Hvalue, Hrising, Hphase. unfold slopeValueAt.
      rewrite rawPhaseAt_applyCurve. apply applyCurve_pos. lra.
    + left. rewrite Hphase. lra.
Qed.

(** With the sample panel unplugged, a 0.1 s tick at clock 2 s ends at phase
    0.1 with value 0.1, integral 0.01 and derivative 0.5, whatever the
    channel was before. *)
Lemma unplugged_running_tick_not_neutral_witness :
  let io := panel noCable noCable 0 0 0.5 in
  let ch := stageAt false 0.5 true in
  let ch' := processSlope io 0.1 false 0 2 ch in
  phase ch' = 0.1 /\ rising ch' = true /\ value ch' = 0.1 /\
  integral ch' = 0.01 /\ derivative ch' = 0.5 /\ ~ neutral ch'.
Proof.
  cbv zeta.
  set (io := panel noCable noCable 0 0 0.5).
  set (ch := stageAt false 0.5 true).
  assert (Hc : isConnected (trigInput io) = false) by reflexivity.
  assert (Hd : 0 < 0.1) by lra.
  destruct (unplugged_running_tick_not_neutral io 0.1 0 2 ch Hc Hd)
    as (Hv & Hi & _ & _ & _).
  assert (He : afterEdges io 2 ch = withPrevSync false (resetNeutral ch)).
  { unfold afterEdges. rewrite triggerBlock_no_cable by exact Hc.
    rewrite syncBlock_quiet by reflexivity.
    unfold currentSync, io. fields_simpl. now Rbool. }
  assert (Hp : phase (processSlope io 0.1 false 0 2 ch) = 0.1).
  { unfold processSlope. fold (afterEdges io 2 ch).
    rewrite He, advance_phase. unfold io.
    rewrite panel_advancedPhase by reflexivity. fields_simpl. Rbool. lra. }
  assert (Hr : rising (processSlope io 0.1 false 0 2 ch) = true).
  { unfold processSlope. fold (afterEdges io 2 ch).
    rewrite He, advance_rising. unfold io.
    rewrite panel_advancedPhase by reflexivity. fields_simpl. now Rbool. }
  assert (Hval : value (processSlope io 0.1 false 0 2 ch) = 0.1).
  { unfold processSlope. fold (afterEdges io 2 ch).
    rewrite advance_value. unfold io at 1. rewrite panel_curve.
    fold io. fold (processSlope io 0.1 false 0 2 ch) in *.
    unfold processSlope in Hr, Hp. fold (afterEdges io 2 ch) in Hr, Hp.
    rewrite Hr, Hp. apply slopeValueAt_linear. }
  assert (Hder : derivative (processSlope io 0.1 false 0 2 ch) = 0.5).
  { unfold processSlope in *. rewrite advance_derivative_closed by lra.
    rewrite Hr. lra. }
  repeat split; try assumption.
  - rewrite Hi, Hval. lra.
  - intros (Hn & _). rewrite Hval in Hn. lra.
Defined.

(** ** The two edge blocks together *)

Lemma syncEdge_triggerBlock io ch :
  syncEdge io (triggerBlock io ch) = syncEdge io ch.
Proof.
  unfold syncEdge. now destruct (triggerBlock_sync_fields io ch) as (-> & _).
Qed.

Lemma afterEdges_sync_edge io now ch :
  syncEdge io ch = true ->
  afterEdges io now ch =
  withPrevSync true
    (restartCycle (newChaos (uniformSync io))
       (withLastSyncTime now
          (if Rgtb (lastSyncTime ch) 0
           then withSyncPeriod (clamp (now - lastSyncTime ch) 0.01 10.0)
                               (triggerBlock io ch)
           else triggerBlock io ch))).
Proof.
  intros He. unfold afterEdges.
  rewrite syncBlock_edge by (now rewrite syncEdge_triggerBlock).
  now destruct (triggerBlock_sync_fields io ch) as (_ & -> & _).
Qed.

(** The two edge blocks never write the derivative or the integral while
    the trigger cable is plugged. *)
Lemma afterEdges_keeps_estimates io now ch :
  isConnected (trigInput io) = true ->
  derivative (afterEdges io now ch) = derivative ch /\
  integral (afterEdges io now ch) = integral ch.
Proof.
  intros Hc. unfold afterEdges.
  assert (Hs : forall c, derivative (syncBlock io now c) = derivative c /\
                         integral (syncBlock io now c) = integral c).
  { intros c. destruct (syncEdge io c) eqn:He.
    - rewrite syncBlock_edge by exact He. fields_simpl.
      destruct (Rgtb (lastSyncTime c) 0); auto.
    - rewrite syncBlock_quiet by exact He. auto. }
  destruct (Hs (triggerBlock io ch)) as [-> ->].
  destruct (triggerEdge io ch) eqn:He.
  - rewrite triggerBlock_edge by exact He. fields_simpl.
    destruct (triggerAccepted (trigModeParam io) ch); auto.
  - rewrite triggerBlock_quiet by assumption. auto.
Qed.

Lemma afterEdges_quiet io now ch :
  isConnected (trigInput io) = true ->
  acceptedTrigger io ch = false ->
  syncEdge io ch = false ->
  afterEdges io now ch
  = withPrevSync (currentSync io) (withPrevTrigger (currentTrigger io) ch).
Proof.
  intros Hc Ha Hs. unfold afterEdges.
  rewrite syncBlock_quiet by (now rewrite syncEdge_triggerBlock).
  f_equal. unfold acceptedTrigger in Ha.
  destruct (triggerEdge io ch) eqn:He.
  - rewrite triggerBlock_edge by exact He. cbn [andb] in Ha. rewrite Ha.
    unfold triggerEdge in He. apply andb_true_iff in He. now destruct He as [-> _].
  - now apply triggerBlock_quiet.
Qed.

Lemma afterEdges_restart io now ch :
  isConnected (trigInput io) = true ->
  acceptedTrigger io ch = true \/ syncEdge io ch = true ->
  phase (afterEdges io now ch) = 0 /\
  value (afterEdges io now ch) = 0 /\
  rising (afterEdges io now ch) = true.
Proof.
  intros Hc H. destruct (syncEdge io ch) eqn:Hs.
  - rewrite afterEdges_sync_edge by exact Hs. fields_simpl. auto.
  - destruct H as [Ha | H]; [|discriminate].
    unfold acceptedTrigger in Ha. apply andb_true_iff in Ha.
    destruct Ha as [He Ha]. unfold afterEdges.
    rewrite syncBlock_quiet by (now rewrite syncEdge_triggerBlock).
    rewrite triggerBlock_edge by exact He. rewrite Ha. fields_simpl. auto.
Qed.

(** ** The trigger policy (C5) *)

Lemma triggerAccepted_completion ch :
  triggerAccepted 3 ch = true <-> rising ch = false /\ 1 <= phase ch.
Proof.
  simpl. rewrite andb_true_iff, negb_true_iff, Rgeb_true_iff. tauto.
Qed.

(** C5.  On a rising trigger edge: in mode 3 (Complete Only) the edge is
    accepted exactly when [rising] is false and the phase is at least 1, and
    an edge that arrives while [rising] is true only stores the level; an
    accepted edge, in any mode, sets phase 0, rising, value 0 and the seed
    drawn for it, changes nothing else but [prevTrigger], and the rest of
    the tick starts from phase 0, rising, value 0; a rejected
    edge changes nothing but [prevTrigger], so that the tick goes on exactly
    as if the level had been high before. *)
Theorem trigger_policy (io : SlopeIO) (ch : Channel) :
  triggerEdge io ch = true ->
  (trigModeParam io = 3%Z ->
   (acceptedTrigger io ch = true <-> rising ch = false /\ 1 <= phase ch)) /\
  (trigModeParam io = 3%Z -> rising ch = true ->
   triggerBlock io ch = withPrevTrigger true ch) /\
  (acceptedTrigger io ch = true ->
   triggerBlock io ch
   = withPrevTrigger true (restartCycle (newChaos (uniformTrigger io)) ch) /\
   phase (triggerBlock io ch) = 0 /\
   rising (triggerBlock io ch) = true /\
   value (triggerBlock io ch) = 0 /\
   chaosMod (triggerBlock io ch) = newChaos (uniformTrigger io) /\
   forall now,
     phase (afterEdges io now ch) = 0 /\
     value (afterEdges io now ch) = 0 /\
     rising (afterEdges io now ch) = true) /\
  (acceptedTrigger io ch = false ->
   triggerBlock io ch = withPrevTrigger true ch /\
   forall deltaTime freeze chaosAmount now,
     processSlope io deltaTime freeze chaosAmount now ch
     = processSlope io deltaTime freeze chaosAmount now (withPrevTrigger true ch)).
Proof.
  intros He. pose proof (triggerBlock_edge io ch He) as Hb.
  assert (Hplug : isConnected (trigInput io) = true).
  { unfold triggerEdge in He. apply andb_true_iff in He.
    now apply currentTrigger_connected. }
  assert (Hrestart : acceptedTrigger io ch = true ->
                     forall now,
                       phase (afterEdges io now ch) = 0 /\
                       value (afterEdges io now ch) = 0 /\
                       rising (afterEdges io now ch) = true).
  { intros Ha now. apply afterEdges_restart; auto. }
  unfold acceptedTrigger in *. rewrite He in *. cbn [andb] in *.
  assert (Hrej : triggerAccepted (trigModeParam io) ch = false ->
                 triggerBlock io ch = withPrevTrigger true ch).
  { intros Ha. now rewrite Hb, Ha. }
  split; [|split; [|split]].
  - intros Hm. rewrite Hm. apply triggerAccepted_completion.
  - intros Hm Hr. apply Hrej. rewrite Hm. simpl. now rewrite Hr.
  - intros Ha. rewrite Hb, Ha. repeat split; now apply Hrestart.
  - intros Ha. split; [now apply Hrej|].
    intros deltaTime freeze chaosAmount now.
    unfold triggerEdge in He. apply andb_true_iff in He. destruct He as [Hc _].
    unfold processSlope. rewrite (Hrej Ha).
    rewrite (triggerBlock_quiet io (withPrevTrigger true ch)).
    + now rewrite Hc.
    + now apply currentTrigger_connected.
    + unfold triggerEdge. simpl. apply andb_false_r.
Qed.

Lemma trigger_policy_witness :
  let io := panel (cableAt 5) noCable 3 0 0.5 in
  triggerBlock io (stageAt true 0.3 false)
  = withPrevTrigger true (stageAt true 0.3 false) /\
  triggerBlock io (stageAt false 1 false)
  = withPrevTrigger true (restartCycle (newChaos 0.5) (stageAt false 1 false)).
Proof.
  cbv zeta.
  assert (Hc : currentTrigger (panel (cableAt 5) noCable 3 0 0.5) = true).
  { unfold currentTrigger. fields_simpl. now Rbool. }
  split.
  - assert (He : triggerEdge (panel (cableAt 5) noCable 3 0 0.5)
                             (stageAt true 0.3 false) = true).
    { unfold triggerEdge. now rewrite Hc. }
    destruct (trigger_policy _ _ He) as (_ & Hrising & _ & _).
    now apply Hrising.
  - assert (He : triggerEdge (panel (cableAt 5) noCable 3 0 0.5)
                             (stageAt false 1 false) = true).
    { unfold triggerEdge. now rewrite Hc. }
    destruct (trigger_policy _ _ He) as (Hiff & _ & Hacc & _).
    apply Hacc. apply Hiff; [reflexivity|]. fields_simpl. split; [reflexivity | lra].
Defined.

(** ** The sync tracker (C6) *)

Lemma processSlope_sync_fields io deltaTime freeze chaosAmount now ch :
  prevSync (processSlope io deltaTime freeze chaosAmount now ch)
  = prevSync (afterEdges io now ch) /\
  lastSyncTime (processSlope io deltaTime freeze chaosAmount now ch)
  = lastSyncTime (afterEdges io now ch) /\
  syncPeriod (processSlope io deltaTime freeze chaosAmount now ch)
  = syncPeriod (afterEdges io now ch).
Proof.
  unfold processSlope. fold (afterEdges io now ch). destruct freeze; [auto|].
  destruct (advance_sync_fields io deltaTime chaosAmount now (afterEdges io now ch))
    as (_ & -> & -> & ->). auto.
Qed.

Lemma processSlope_sync_edge io deltaTime freeze chaosAmount now ch :
  syncEdge io ch = true ->
  lastSyncTime (processSlope io deltaTime freeze chaosAmount now ch) = now /\
  syncPeriod (processSlope io deltaTime freeze chaosAmount now ch)
  = (if Rgtb (lastSyncTime ch) 0
     then clamp (now - lastSyncTime ch) 0.01 10.0 else syncPeriod ch).
Proof.
  intros He.
  destruct (processSlope_sync_fields io deltaTime freeze chaosAmount now ch)
    as (_ & -> & ->).
  rewrite afterEdges_sync_edge by exact He. fields_simpl.
  destruct (Rgtb (lastSyncTime ch) 0); fields_simpl; [auto|].
  now destruct (triggerBlock_sync_fields io ch) as (_ & _ & ->).
Qed.

Lemma processSlope_sync_quiet io deltaTime freeze chaosAmount now ch :
  syncEdge io ch = false ->
  lastSyncTime (processSlope io deltaTime freeze chaosAmount now ch)
  = lastSyncTime ch /\
  syncPeriod (processSlope io deltaTime freeze chaosAmount now ch)
  = syncPeriod ch.
Proof.
  intros He.
  destruct (processSlope_sync_fields io deltaTime freeze chaosAmount now ch)
    as (_ & -> & ->).
  unfold afterEdges.
  rewrite syncBlock_quiet by (now rewrite syncEdge_triggerBlock). fields_simpl.
  now destruct (triggerBlock_sync_fields io ch) as (_ & -> & ->).
Qed.

Lemma processSlope_prevSync io deltaTime freeze chaosAmount now ch :
  prevSync (processSlope io deltaTime freeze chaosAmount now ch) = currentSync io.
Proof.
  destruct (processSlope_sync_fields io deltaTime freeze chaosAmount now ch)
    as (-> & _).
  unfold afterEdges, syncBlock. reflexivity.
Qed.

Lemma noSyncEdgeIn_calls mid ch :
  noSyncEdgeIn mid ch = true ->
  lastSyncTime (callsSlope mid ch) = lastSyncTime ch /\
  syncPeriod (callsSlope mid ch) = syncPeriod ch.
Proof.
  revert ch. induction mid as [|c mid IH]; intros ch H; [simpl; auto|].
  cbn [noSyncEdgeIn] in H. cbn [callsSlope].
  apply andb_true_iff in H. destruct H as [He Hq].
  apply negb_true_iff in He.
  destruct (IH _ Hq) as [-> ->]. unfold callSlope.
  now apply processSlope_sync_quiet.
Qed.

(** Every tick of the module is one call per channel, with the clock of
    line 336 as the clock reading. *)
Lemma step_is_call s t m :
  slopeOf s (step t m) =
  callSlope (mkSlopeCall (ioOf s t) (sampleTime t) (frozenOf s t m) (chaosOf s t)
                         (currentTime (step t m)))
            (slopeOf s m).
Proof. destruct s; reflexivity. Qed.

Lemma processSlope_syncPeriod_pos io deltaTime freeze chaosAmount now ch :
  0 < syncPeriod ch ->
  0 < syncPeriod (processSlope io deltaTime freeze chaosAmount now ch).
Proof.
  intros Hp. destruct (syncEdge io ch) eqn:He.
  - destruct (processSlope_sync_edge io deltaTime freeze chaosAmount now ch He)
      as [_ ->].
    destruct (Rgtb (lastSyncTime ch) 0); [|exact Hp].
    pose proof (clamp_bounds (now - lastSyncTime ch) 0.01 10.0). lra.
  - now destruct (processSlope_sync_quiet io deltaTime freeze chaosAmount now ch He)
      as [_ ->].
Qed.

(** C6.  A sync edge (cable plugged, level high after low) with a stored
    timestamp above 0 sets the period to the clamped difference between the
    clock reading of the call and that timestamp, and leaves the period
    alone otherwise; it always stores the clock reading as the new
    timestamp and hands the rest of the tick a channel at phase 0, rising,
    value 0, with the seed drawn for it.  Two sync edges whose clock
    readings lie 2.0 s apart, the first met without a timestamp, with any
    calls without a sync edge in between, leave the period at 2.0.  With
    the sync cable plugged and a positive period, the time of the active
    stage is its own time multiplied by [syncPeriod / (riseTime +
    fallTime)], and the phase advances by [deltaTime] over that product;
    from the initial state the period is positive after every sequence of
    ticks. *)
Theorem sync_tracker :
  (forall io deltaTime freeze chaosAmount now ch,
      syncEdge io ch = true ->
      let ch' := processSlope io deltaTime freeze chaosAmount now ch in
      syncPeriod ch' =
        (if Rgtb (lastSyncTime ch) 0
         then clamp (now - lastSyncTime ch) 0.01 10.0 else syncPeriod ch) /\
      lastSyncTime ch' = now /\
      phase (afterEdges io now ch) = 0 /\
      rising (afterEdges io now ch) = true /\
      value (afterEdges io now ch) = 0 /\
      chaosMod (afterEdges io now ch) = newChaos (uniformSync io)) /\
  (forall c1 mid c2 ch,
      lastSyncTime ch <= 0 -> 0 < callClock c1 ->
      syncEdge (callIO c1) ch = true ->
      noSyncEdgeIn mid (callSlope c1 ch) = true ->
      syncEdge (callIO c2) (callsSlope mid (callSlope c1 ch)) = true ->
      callClock c2 - callClock c1 = 2.0 ->
      syncPeriod (callSlope c2 (callsSlope mid (callSlope c1 ch))) = 2.0 /\
      lastSyncTime (callSlope c2 (callsSlope mid (callSlope c1 ch)))
      = callClock c2) /\
  (forall io deltaTime chaosAmount ch,
      syncEnabled io = true -> 0 < syncPeriod ch ->
      let stage := if rising ch then riseTimeOf io chaosAmount ch
                   else fallTimeOf io chaosAmount ch in
      let scale := syncPeriod ch
                   / (riseTimeOf io chaosAmount ch + fallTimeOf io chaosAmount ch) in
      envelopeTimeOf io chaosAmount ch = stage * scale /\
      advancedPhase io deltaTime chaosAmount ch
      = phase ch + deltaTime / (stage * scale)) /\
  (forall uA uB ts,
      0 < syncPeriod (slopeA (run ts (initMatho uA uB))) /\
      0 < syncPeriod (slopeB (run ts (initMatho uA uB)))).
Proof.
  split; [|split; [|split]].
  - intros io deltaTime freeze chaosAmount now ch He ch'.
    destruct (processSlope_sync_edge io deltaTime freeze chaosAmount now ch He)
      as [Hl Hp].
    rewrite afterEdges_sync_edge by exact He. fields_simpl.
    repeat split; assumption.
  - intros c1 mid c2 ch Hlast Hclock He1 Hmid He2 Hapart.
    set (ch1 := callSlope c1 ch) in *. set (ch2 := callsSlope mid ch1) in *.
    assert (Hl1 : lastSyncTime ch1 = callClock c1).
    { unfold ch1, callSlope. now apply processSlope_sync_edge. }
    destruct (noSyncEdgeIn_calls mid ch1 Hmid) as [Hl2 _]. fold ch2 in Hl2.
    unfold callSlope.
    destruct (processSlope_sync_edge (callIO c2) (callDelta c2) (callFreeze c2)
                (callChaos c2) (callClock c2) ch2 He2) as [-> ->].
    split; [|reflexivity].
    rewrite Hl2, Hl1.
    rewrite (proj2 (Rgtb_true_iff _ _)) by lra.
    rewrite clamp_inside; lra.
  - intros io deltaTime chaosAmount ch He Hp stage scale.
    assert (Henv : envelopeTimeOf io chaosAmount ch = stage * scale).
    { unfold envelopeTimeOf.
      rewrite He, (proj2 (Rgtb_true_iff _ _)) by exact Hp. reflexivity. }
    split; [exact Henv|]. unfold advancedPhase. now rewrite Henv.
  - intros uA uB ts.
    apply (run_invariant (fun ch => 0 < syncPeriod ch) (fun _ => True)).
    + intros. now apply processSlope_syncPeriod_pos.
    + apply Forall_forall. trivial.
    + simpl. lra.
    + simpl. lra.
Qed.

(** Three calls on a fresh channel, sync high at clock 1, low at clock 2,
    high at clock 3: the period is 2.0 after the third. *)
Lemma sync_tracker_witness :
  let high := panel noCable (cableAt 5) 0 0 0.5 in
  let low := panel noCable (cableAt 0) 0 0 0.5 in
  let c1 := mkSlopeCall high 1 false 0 1 in
  let c2 := mkSlopeCall low 1 false 0 2 in
  let c3 := mkSlopeCall high 1 false 0 3 in
  lastSyncTime (callSlope c1 (initChannel 0.5)) = 1 /\
  syncPeriod (callSlope c3 (callsSlope [c2] (callSlope c1 (initChannel 0.5)))) = 2.0 /\
  envelopeTimeOf high 0 (initChannel 0.5) = 1 * (1.0 / (1 + 1)).
Proof.
  cbv zeta.
  set (high := panel noCable (cableAt 5) 0 0 0.5).
  set (low := panel noCable (cableAt 0) 0 0 0.5).
  set (c1 := mkSlopeCall high 1 false 0 1).
  set (c2 := mkSlopeCall low 1 false 0 2).
  set (c3 := mkSlopeCall high 1 false 0 3).
  set (ch := initChannel 0.5).
  assert (Hhigh : currentSync high = true).
  { unfold currentSync, high. fields_simpl. now Rbool. }
  assert (Hlow : currentSync low = false).
  { unfold currentSync, low. fields_simpl. now Rbool. }
  assert (He1 : syncEdge (callIO c1) ch = true).
  { unfold syncEdge, c1. cbn [callIO]. rewrite Hhigh. reflexivity. }
  assert (Hmid : noSyncEdgeIn [c2] (callSlope c1 ch) = true).
  { cbn [noSyncEdgeIn]. unfold syncEdge, c2. cbn [callIO].
    rewrite Hlow. reflexivity. }
  assert (He2 : syncEdge (callIO c3) (callsSlope [c2] (callSlope c1 ch)) = true).
  { unfold syncEdge, c3. cbn [callIO callsSlope]. rewrite Hhigh.
    unfold callSlope at 1. rewrite processSlope_prevSync.
    unfold c2. cbn [callIO]. rewrite Hlow. reflexivity. }
  destruct sync_tracker as (Hedge & Hpulses & Hscale & _).
  split; [|split].
  - now apply (Hedge high 1 false 0 1 ch He1).
  - apply (Hpulses c1 [c2] c3 ch); try assumption.
    + simpl. lra.
    + unfold c1. cbn [callClock]. lra.
    + unfold c1, c3. cbn [callClock]. lra.
  - destruct (Hscale high 0.1 0 ch) as [Henv _].
    + reflexivity.
    + simpl. lra.
    + rewrite Henv. unfold high. fields_simpl.
      now rewrite panel_riseTime, panel_fallTime.
Defined.

(** ** The breakpoint latch (C7) *)

Lemma afterEdges_breakpointPulse io now ch :
  breakpointPulse (afterEdges io now ch)
  = (isConnected (trigInput io) && breakpointPulse ch)%bool.
Proof.
  unfold afterEdges.
  assert (Hs : forall c, breakpointPulse (syncBlock io now c) = breakpointPulse c).
  { intros c. destruct (syncEdge io c) eqn:He.
    - rewrite syncBlock_edge by exact He. fields_simpl.
      destruct (Rgtb (lastSyncTime c) 0); reflexivity.
    - rewrite syncBlock_quiet by exact He. reflexivity. }
  rewrite Hs. unfold triggerBlock.
  destruct (isConnected (trigInput io)); simpl;
    destruct (currentTrigger io); simpl; auto.
  - destruct (prevTrigger ch); simpl; auto.
    destruct (triggerAccepted (trigModeParam io) ch); simpl; auto.
  - destruct (triggerAccepted (trigModeParam io) (resetNeutral ch)); simpl; auto.
Qed.

Lemma processSlope_breakpointPulse io deltaTime freeze chaosAmount now ch :
  breakpointPulse (processSlope io deltaTime freeze chaosAmount now ch) =
  if completesFall io deltaTime freeze chaosAmount now ch then false
  else if freeze then breakpointPulse (afterEdges io now ch)
  else (breakpointPulse (afterEdges io now ch)
        || Rgeb (cyclePhase (advancePhase io deltaTime chaosAmount
                                          (afterEdges io now ch)))
                (breakpointPhase io))%bool.
Proof.
  unfold completesFall, processSlope. fold (afterEdges io now ch).
  destruct freeze; cbn [negb andb]; [reflexivity|].
  apply advance_breakpointPulse.
Qed.

(** C7, as stated, fails: with the trigger cable unplugged the reset of
    line 410 clears a latched [breakpointPulse] on a tick that does not
    complete the fall.  Here the channel is half-way up the rise with the
    pulse latched (breakpoint knob at 0.5); after the tick the phase is 0.1,
    below the threshold 1.0, and the pulse is clear. *)
Lemma breakpoint_latch_counterexample :
  (let io := panel noCable noCable 0 0 0.5 in
   let ch := stageAt true 0.5 true in
   breakpointPulse ch = true /\
   completesFall io 0.1 false 0 2 ch = false /\
   breakpointPulse (processSlope io 0.1 false 0 2 ch) = false) /\
  ~ claimed_breakpoint_latch.
Proof.
  set (io := panel noCable noCable 0 0 0.5).
  set (ch := stageAt true 0.5 true).
  assert (Hcs : currentSync io = false).
  { unfold currentSync, io. fields_simpl. now Rbool. }
  assert (He : afterEdges io 2 ch = withPrevSync false (resetNeutral ch)).
  { unfold afterEdges. rewrite triggerBlock_no_cable by reflexivity.
    rewrite syncBlock_quiet by reflexivity. now rewrite Hcs. }
  assert (Hp : advancedPhase io 0.1 0 (afterEdges io 2 ch) = 0.1).
  { unfold io. rewrite panel_advancedPhase by reflexivity.
    fold io. rewrite He. fields_simpl. lra. }
  assert (Hc : completesFall io 0.1 false 0 2 ch = false).
  { unfold completesFall. rewrite fallCompletes_advancePhase, Hp. now Rbool. }
  assert (Hb : breakpointPulse (processSlope io 0.1 false 0 2 ch) = false).
  { rewrite processSlope_breakpointPulse, Hc, afterEdges_breakpointPulse.
    unfold advancePhase. rewrite Hp, He.
    unfold cyclePhase. fields_simpl.
    unfold io. rewrite panel_breakpointPhase by lra. now Rbool. }
  split; [repeat split; assumption|].
  intros Hclaim.
  specialize (Hclaim io 0.1 false 0 2 ch eq_refl Hc). congruence.
Qed.

(** C7, amended.  On a running tick that starts with the pulse clear, the
    check of line 541 sets [breakpointPulse], and the breakpoint light goes
    to 1, exactly when the cycle-phase (phase in the rise, 1 + phase in the
    fall) has reached [breakpoint * 2]; if that same tick completes the
    fall, lines 565-567 clear the pulse again before the tick ends, so that
    at the end of the tick the pulse is set exactly when the threshold is
    reached and the fall is not completed.  Once set it stays set through
    every tick, frozen or not, that finds the trigger cable plugged and does
    not complete the fall.  It is cleared by the tick that completes the
    fall and by the reset of an unplugged trigger cable, and by nothing
    else. *)
Theorem breakpoint_latch
        (io : SlopeIO) (deltaTime : R) (freeze : bool) (chaosAmount now : R)
        (ch : Channel) :
  let ch' := processSlope io deltaTime freeze chaosAmount now ch in
  let completes := completesFall io deltaTime freeze chaosAmount now ch in
  let advanced := advancePhase io deltaTime chaosAmount (afterEdges io now ch) in
  (freeze = false -> breakpointPulse (afterEdges io now ch) = false ->
   (breakpointPulse (breakpointCheck io advanced) = true <->
    breakpointPhase io <= cyclePhase advanced) /\
   (breakpointLight ch' = 1.0 <-> breakpointPhase io <= cyclePhase advanced) /\
   (breakpointPulse ch' = true <->
    breakpointPhase io <= cyclePhase advanced /\ completes = false)) /\
  (breakpointPulse ch = true -> isConnected (trigInput io) = true ->
   completes = false -> breakpointPulse ch' = true) /\
  (completes = true -> breakpointPulse ch' = false) /\
  (isConnected (trigInput io) = false ->
   breakpointPulse (afterEdges io now ch) = false) /\
  (breakpointPulse ch = true -> breakpointPulse ch' = false ->
   completes = true \/ isConnected (trigInput io) = false).
Proof.
  intros ch' completes advanced.
  assert (Hb : breakpointPulse ch' =
               if completes then false
               else if freeze then breakpointPulse (afterEdges io now ch)
               else (breakpointPulse (afterEdges io now ch)
                     || Rgeb (cyclePhase advanced) (breakpointPhase io))%bool)
    by apply processSlope_breakpointPulse.
  assert (Hlatch : breakpointPulse ch = true -> isConnected (trigInput io) = true ->
                   completes = false -> breakpointPulse ch' = true).
  { intros Hset Hc Hn. rewrite Hb, Hn, afterEdges_breakpointPulse, Hc, Hset.
    now destruct freeze. }
  split; [|split; [|split; [|split]]].
  - intros Hf Hclear.
    assert (Hadv : breakpointPulse advanced = false) by exact Hclear.
    assert (Htrig : breakpointTriggered io advanced
                    = Rgeb (cyclePhase advanced) (breakpointPhase io)).
    { unfold breakpointTriggered. rewrite Hadv. apply andb_true_r. }
    pose proof (Rgeb_true_iff (cyclePhase advanced) (breakpointPhase io)) as Hr.
    split; [|split].
    + unfold breakpointCheck. rewrite Htrig.
      destruct (Rgeb (cyclePhase advanced) (breakpointPhase io));
        fields_simpl; [tauto|].
      rewrite Hadv. tauto.
    + assert (Hl : breakpointLight ch' =
                   if breakpointTriggered io advanced then 1.0 else 0.0).
      { unfold ch', processSlope. rewrite Hf. reflexivity. }
      rewrite Hl, Htrig.
      destruct (Rgeb (cyclePhase advanced) (breakpointPhase io)).
      * tauto.
      * split; [intros H; exfalso; lra|].
        intros H. apply Hr in H. discriminate.
    + rewrite Hb, Hf, Hclear. cbn [orb].
      destruct completes.
      * split; [discriminate|]. intros [_ H]. discriminate.
      * rewrite Hr. tauto.
  - exact Hlatch.
  - intros Hc. now rewrite Hb, Hc.
  - intros Hc. now rewrite afterEdges_breakpointPulse, Hc.
  - intros Hset Hclear.
    destruct completes eqn:Hn; [now left|].
    destruct (isConnected (trigInput io)) eqn:Hc; [|now right].
    rewrite (Hlatch Hset eq_refl eq_refl) in Hclear. discriminate.
Qed.

(** The same half-risen channel with the pulse latched and the trigger
    cable plugged: the pulse is still set after the tick.  And a channel at
    0.95 of its fall with the pulse clear and the breakpoint knob at 0.9999:
    the tick of 0.1 s reaches the threshold and completes the fall, so the
    light goes to 1 and the pulse is clear when the tick ends. *)
Lemma breakpoint_latch_witness :
  (let io := panel (cableAt 0) noCable 0 0 0.5 in
   let ch := stageAt true 0.5 true in
   completesFall io 0.1 false 0 2 ch = false /\
   breakpointPulse (processSlope io 0.1 false 0 2 ch) = true) /\
  (let io := panel (cableAt 0) noCable 0 0 0.9999 in
   let ch := stageAt false 0.95 false in
   completesFall io 0.1 false 0 2 ch = true /\
   breakpointPulse (breakpointCheck io (advancePhase io 0.1 0 (afterEdges io 2 ch)))
   = true /\
   breakpointLight (processSlope io 0.1 false 0 2 ch) = 1.0 /\
   breakpointPulse (processSlope io 0.1 false 0 2 ch) = false).
Proof.
  cbv zeta. split.
  - assert (Hc : completesFall (panel (cableAt 0) noCable 0 0 0.5) 0.1 false 0 2
                               (stageAt true 0.5 true) = false).
    { rewrite quiet_panel_fallCompletes. fields_simpl. now Rbool. }
    split; [exact Hc|].
    destruct (breakpoint_latch (panel (cableAt 0) noCable 0 0 0.5) 0.1 false 0 2
                               (stageAt true 0.5 true)) as (_ & Hlatch & _).
    apply Hlatch; [reflexivity | reflexivity | exact Hc].
  - set (io := panel (cableAt 0) noCable 0 0 0.9999).
    set (ch := stageAt false 0.95 false).
    assert (Hc : completesFall io 0.1 false 0 2 ch = true).
    { unfold io, ch. rewrite quiet_panel_fallCompletes. fields_simpl. now Rbool. }
    assert (Hclear : breakpointPulse (afterEdges io 2 ch) = false).
    { rewrite afterEdges_breakpointPulse. apply andb_false_r. }
    assert (Hreach : breakpointPhase io
                     <= cyclePhase (advancePhase io 0.1 0 (afterEdges io 2 ch))).
    { unfold io, ch. rewrite quiet_panel_edges, panel_breakpointPhase by lra.
      unfold advancePhase, cyclePhase.
      rewrite panel_advancedPhase by reflexivity. fields_simpl. lra. }
    destruct (breakpoint_latch io 0.1 false 0 2 ch) as (Hfirst & _ & Hdone & _).
    destruct (Hfirst eq_refl Hclear) as (Hset & Hlight & _).
    split; [exact Hc|].
    split; [now apply Hset|].
    split; [now apply Hlight|].
    now apply Hdone.
Defined.

(** ** Freeze (C8) *)

(** C8, as stated, fails: a frozen tick that finds the trigger cable
    unplugged runs the reset, with neither an accepted trigger edge nor a
    sync edge.  A channel frozen half-way up the rise is back at phase 0. *)
Lemma freeze_frame_counterexample :
  (let io := panel noCable noCable 0 0 0.5 in
   let ch := stageAt true 0.5 false in
   acceptedTrigger io ch = false /\ syncEdge io ch = false /\
   phase ch = 0.5 /\ phase (processSlope io 0.1 true 0 2 ch) = 0) /\
  ~ claimed_freeze_frame.
Proof.
  set (io := panel noCable noCable 0 0 0.5).
  set (ch := stageAt true 0.5 false).
  assert (Ha : acceptedTrigger io ch = false).
  { unfold acceptedTrigger, triggerEdge.
    now rewrite (currentTrigger_no_cable io eq_refl). }
  assert (Hs : syncEdge io ch = false) by reflexivity.
  assert (Hp : phase (processSlope io 0.1 true 0 2 ch) = 0).
  { destruct (unplugged_frozen_tick_neutral io 0.1 0 2 ch eq_refl)
      as (_ & _ & _ & _ & _ & H & _). exact H. }
  split; [repeat split; assumption|].
  intros Hclaim.
  destruct (Hclaim io 0.1 0 2 ch Ha Hs) as (H & _).
  rewrite Hp in H. unfold ch in H. cbn [stageAt phase] in H. lra.
Qed.

Lemma frozenQuiet_run s ts m :
  frozenQuiet s ts m = true ->
  phase (slopeOf s (run ts m)) = phase (slopeOf s m) /\
  rising (slopeOf s (run ts m)) = rising (slopeOf s m) /\
  value (slopeOf s (run ts m)) = value (slopeOf s m) /\
  derivative (slopeOf s (run ts m)) = derivative (slopeOf s m) /\
  integral (slopeOf s (run ts m)) = integral (slopeOf s m).
Proof.
  revert m. induction ts as [|t ts IH]; intros m H; [simpl; auto 6|].
  cbn [frozenQuiet] in H.
  repeat (apply andb_true_iff in H; destruct H as [H ?]).
  cbn [run].
  match goal with
  | [ Hq : frozenQuiet s ts _ = true |- _ ] =>
      destruct (IH _ Hq) as (-> & -> & -> & -> & ->)
  end.
  rewrite slopeOf_step, H. unfold processSlope. fold (afterEdges (ioOf s t)
    (currentTime m + sampleTime t) (slopeOf s m)).
  rewrite afterEdges_quiet by (try assumption; now apply negb_true_iff).
  auto 6.
Qed.

(** C8, amended.  A frozen tick that finds the trigger cable plugged leaves
    the derivative and the integral as they were; without an accepted
    trigger edge and without a sync edge it leaves phase, stage and value
    as they were too, and with one of them it sets phase 0, rising, value
    0.  Hence over any run of ticks in which a channel is frozen, its
    trigger cable stays plugged, and no trigger edge is accepted and no sync
    edge seen, the phase (and the stage, value, derivative and integral) at
    the end is the one at the start. *)
Theorem freeze_frame :
  (forall io deltaTime chaosAmount now ch,
      isConnected (trigInput io) = true ->
      let ch' := processSlope io deltaTime true chaosAmount now ch in
      derivative ch' = derivative ch /\ integral ch' = integral ch /\
      (acceptedTrigger io ch = false -> syncEdge io ch = false ->
       phase ch' = phase ch /\ rising ch' = rising ch /\ value ch' = value ch) /\
      (acceptedTrigger io ch = true \/ syncEdge io ch = true ->
       phase ch' = 0 /\ value ch' = 0 /\ rising ch' = true)) /\
  (forall s ts m,
      frozenQuiet s ts m = true ->
      phase (slopeOf s (run ts m)) = phase (slopeOf s m) /\
      rising (slopeOf s (run ts m)) = rising (slopeOf s m) /\
      value (slopeOf s (run ts m)) = value (slopeOf s m) /\
      derivative (slopeOf s (run ts m)) = derivative (slopeOf s m) /\
      integral (slopeOf s (run ts m)) = integral (slopeOf s m)).
Proof.
  split.
  - intros io deltaTime chaosAmount now ch Hc ch'.
    unfold ch', processSlope. fold (afterEdges io now ch).
    destruct (afterEdges_keeps_estimates io now ch Hc) as [-> ->].
    repeat split.
    + rewrite afterEdges_quiet by assumption. reflexivity.
    + rewrite afterEdges_quiet by assumption. reflexivity.
    + rewrite afterEdges_quiet by assumption. reflexivity.
    + now apply afterEdges_restart.
    + now apply afterEdges_restart.
    + now apply afterEdges_restart.
  - apply frozenQuiet_run.
Qed.

(** Channel A half-way up the rise; the freeze button is pressed for one
    tick and released for the next: both ticks are frozen and the phase is
    still 0.5 after them.  A second press then finds the channel unfrozen. *)
Lemma freeze_frame_witness :
  let io := panel (cableAt 0) noCable 0 0 0.5 in
  let press := tickA io 0.1 1 in
  let release := tickA io 0.1 0 in
  let m := moduleAt (stageAt true 0.5 false) in
  frozenQuiet SideA [press; release] m = true /\
  phase (slopeA (run [press; release] m)) = 0.5 /\
  frozenA press (run [press; release] m) = false.
Proof.
  cbv zeta.
  set (io := panel (cableAt 0) noCable 0 0 0.5).
  set (press := tickA io 0.1 1).
  set (release := tickA io 0.1 0).
  set (m := moduleAt (stageAt true 0.5 false)).
  assert (Hlow : currentTrigger io = false).
  { unfold currentTrigger, io. fields_simpl. now Rbool. }
  assert (Hacc : forall ch, acceptedTrigger io ch = false).
  { intros ch. unfold acceptedTrigger, triggerEdge. now rewrite Hlow. }
  assert (Hsync : forall ch, syncEdge io ch = false) by reflexivity.
  assert (Hpressed : Rgtb 1 0.5 = true) by now Rbool.
  assert (Hreleased : Rgtb 0 0.5 = false) by now Rbool.
  assert (H1 : frozenA press m = true).
  { unfold frozenA, press, m. fields_simpl. apply freezeStep_pressed. }
  assert (H2 : frozenA release (step press m) = true).
  { unfold frozenA, release. fields_simpl.
    rewrite freezeStep_released. exact H1. }
  assert (H3 : frozenA press (step release (step press m)) = false).
  { unfold frozenA. change (freezeAState (step release (step press m)))
      with (frozenA release (step press m)).
    change (prevFreezeAButton (step release (step press m))) with (Rgtb 0 0.5).
    rewrite H2, Hreleased. unfold press. fields_simpl. apply freezeStep_pressed. }
  assert (Hq : frozenQuiet SideA [press; release] m = true).
  { cbn [frozenQuiet frozenOf ioOf slopeOf]. rewrite H1, H2.
    change (ioA press) with io. change (ioA release) with io.
    now rewrite !Hacc, !Hsync. }
  split; [exact Hq|]. split; [|exact H3].
  destruct (proj2 freeze_frame SideA [press; release] m Hq) as (H & _).
  cbn [slopeOf] in H. rewrite H.
  unfold m. fields_simpl. reflexivity.
Defined.

(** ** The curve shaper and the published value (C9) *)

(** C9.  For every curvature (in particular every [c] in [-1, 1]) the
    shaper sends phase 0 to 0 and phase 1 to 1.  The value published by a
    running tick is the shaped phase in the rise and one minus the shaped
    phase in the fall, so it is 0 at the start of the rise, 1 at its end and
    at the start of the fall, and 0 at the end of the fall, whatever the
    curvature. *)
Theorem curve_endpoints :
  (forall c : R, applyCurve 0 c = 0 /\ applyCurve 1 c = 1) /\
  (forall io deltaTime chaosAmount now ch,
      let ch' := processSlope io deltaTime false chaosAmount now ch in
      value ch' =
      slopeValueAt (curveOf io chaosAmount (afterEdges io now ch))
                   (rising ch') (phase ch')) /\
  (forall c r p,
      slopeValueAt c r p = if r then applyCurve p c else 1 - applyCurve p c) /\
  (forall c : R,
      slopeValueAt c true 0 = 0 /\ slopeValueAt c true 1 = 1 /\
      slopeValueAt c false 0 = 1 /\ slopeValueAt c false 1 = 0).
Proof.
  assert (Hshape : forall c r p,
             slopeValueAt c r p = if r then applyCurve p c else 1 - applyCurve p c).
  { intros c r p. unfold slopeValueAt. rewrite rawPhaseAt_applyCurve.
    destruct r; lra. }
  split; [|split; [|split]].
  - intros c. split; [apply applyCurve_zero | apply applyCurve_one].
  - reflexivity.
  - exact Hshape.
  - intros c. rewrite !Hshape, applyCurve_zero, applyCurve_one.
    repeat split; lra.
Qed.

(** ** Phase and value stay in the unit interval (C10) *)

Lemma initChannel_inRange (u : R) : inRange (initChannel u).
Proof. unfold inRange. simpl. lra. Qed.

(** C10.  From the initial state, after any sequence of ticks of positive
    [deltaTime], with any levels, knobs, CV voltages and draws, the phase
    and the value of both channels lie in [0, 1].  Every call of
    [processSlope] keeps the two bounds (lemma [processSlope_inRange]),
    frozen or running, with or without the resets. *)
Theorem phase_and_value_in_unit_interval (uA uB : R) (ts : list Tick) :
  Forall (fun t => 0 < sampleTime t) ts ->
  inRange (slopeA (run ts (initMatho uA uB))) /\
  inRange (slopeB (run ts (initMatho uA uB))).
Proof.
  intros Hts.
  apply (run_invariant inRange (fun t => 0 < sampleTime t)); try assumption.
  - intros t fr ca now io ch Hd H. now apply processSlope_inRange.
  - apply initChannel_inRange.
  - apply initChannel_inRange.
Qed.

(** A trigger on channel A followed by two running ticks. *)
Lemma phase_and_value_in_unit_interval_witness :
  let io := panel (cableAt 5) noCable 0 0 0.5 in
  let ts := [tickA io 0.1 0; tickA io 0.7 0; tickA io 0.7 0] in
  0 <= phase (slopeA (run ts (initMatho 0.5 0.5))) <= 1 /\
  0 <= value (slopeA (run ts (initMatho 0.5 0.5))) <= 1.
Proof.
  cbv zeta.
  apply (phase_and_value_in_unit_interval 0.5 0.5).
  repeat constructor; fields_simpl; lra.
Defined.

(** * Further properties of the slope engine *)

(** ** The knob law and the stage times *)

Lemma knobTime_low (x : R) : x <= 0.5 -> knobTime x = x * 2.
Proof. intros H. unfold knobTime. Rbool. lra. Qed.

Lemma knobTime_high (x : R) :
  0.5 < x -> knobTime x = 1 + ((x - 0.5) * 2) * ((x - 0.5) * 2) * 4.
Proof.
  intros H. unfold knobTime. Rbool. rewrite powf_square by lra. lra.
Qed.

(** X1.  The knob law of the rise and fall times is monotone over the knob's
    travel and maps it into 0 to 5 seconds; the two halves (linear up to
    0.5, quadratic above) meet without a step: between any two knob
    positions the time grows by at most 16 times the distance between
    them. *)
Theorem knobTime_monotone (x y : R) :
  0 <= x -> x <= y -> y <= 1 ->
  0 <= knobTime x /\ knobTime x <= knobTime y /\ knobTime y <= 5 /\
  knobTime y - knobTime x <= 16 * (y - x).
Proof.
  intros Hx Hxy Hy.
  destruct (Rle_lt_dec x 0.5) as [Hxl | Hxh];
    destruct (Rle_lt_dec y 0.5) as [Hyl | Hyh].
  - rewrite !knobTime_low by assumption. lra.
  - rewrite knobTime_low, knobTime_high by assumption. nra.
  - lra.
  - rewrite !knobTime_high by assumption. nra.
Qed.

Lemma knobTime_monotone_witness :
  0 <= knobTime 0.25 /\ knobTime 0.25 <= knobTime 0.75 /\ knobTime 0.75 <= 5 /\
  knobTime 0.75 - knobTime 0.25 <= 16 * (0.75 - 0.25).
Proof. apply knobTime_monotone; lra. Defined.

(** X2.  Without a sync cable the phase moves, in a tick of [deltaTime]
    seconds, by at least [deltaTime / 20] and at most [1000 * deltaTime],
    whatever the knobs, CV voltages and chaos: a stage lasts between 1 ms
    and 20 s. *)
Theorem phase_step_bounds (io : SlopeIO) (deltaTime chaosAmount : R) (ch : Channel) :
  0 < deltaTime -> syncEnabled io = false ->
  deltaTime / 20 <= advancedPhase io deltaTime chaosAmount ch - phase ch
  /\ advancedPhase io deltaTime chaosAmount ch - phase ch <= 1000 * deltaTime.
Proof.
  intros Hd Hs. unfold advancedPhase, envelopeTimeOf, riseTimeOf, fallTimeOf.
  rewrite Hs. cbn [andb].
  set (e := if rising ch
            then stageTime io chaosAmount ch (riseParamValue io)
            else stageTime io chaosAmount ch (fallParamValue io)).
  assert (He : 0.001 <= e <= 20.0).
  { unfold e. destruct (rising ch); apply stageTime_bounds. }
  assert (Hinv : / 20 <= / e <= 1000).
  { split.
    - apply Rinv_le_contravar; lra.
    - replace 1000 with (/ 0.001) by lra. apply Rinv_le_contravar; lra. }
  unfold Rdiv. nra.
Qed.

Lemma phase_step_bounds_witness :
  let io := panel (cableAt 0) noCable 0 0 0.5 in
  let ch := stageAt true 0.3 false in
  0.1 / 20 <= advancedPhase io 0.1 0 ch - phase ch
  /\ advancedPhase io 0.1 0 ch - phase ch <= 1000 * 0.1.
Proof. cbv zeta. apply phase_step_bounds; [lra | reflexivity]. Defined.

(** X3.  With the sync cable plugged and a positive period, the rescaled
    rise time and the rescaled fall time add up to the sync period: one
    rise and fall takes [syncPeriod] seconds. *)
Theorem sync_cycle_length (io : SlopeIO) (chaosAmount : R) (up down : Channel) :
  syncEnabled io = true ->
  rising up = true -> rising down = false ->
  chaosMod up = chaosMod down -> syncPeriod up = syncPeriod down ->
  0 < syncPeriod up ->
  envelopeTimeOf io chaosAmount up + envelopeTimeOf io chaosAmount down
  = syncPeriod up.
Proof.
  intros Hs Hu Hd Hc Hp Hpos.
  unfold envelopeTimeOf, riseTimeOf, fallTimeOf, stageTime, chaosEffect.
  rewrite Hs, Hu, Hd, <- Hp, <- Hc, (proj2 (Rgtb_true_iff _ _)) by exact Hpos.
  cbn [andb].
  fold (chaosEffect chaosAmount up).
  fold (stageTime io chaosAmount up (riseParamValue io)).
  fold (stageTime io chaosAmount up (fallParamValue io)).
  pose proof (stageTime_bounds io chaosAmount up (riseParamValue io)).
  pose proof (stageTime_bounds io chaosAmount up (fallParamValue io)).
  field. lra.
Qed.

Lemma sync_cycle_length_witness :
  let io := panel (cableAt 0) (cableAt 0) 0 0 0.5 in
  envelopeTimeOf io 0 (stageAt true 0.3 false)
  + envelopeTimeOf io 0 (stageAt false 0.3 false) = 1.0.
Proof.
  cbv zeta.
  apply (sync_cycle_length (panel (cableAt 0) (cableAt 0) 0 0 0.5) 0
                           (stageAt true 0.3 false) (stageAt false 0.3 false));
    try reflexivity.
  simpl. lra.
Defined.

(** ** The chaos seed *)

Lemma processSlope_chaosMod_cases
      (P : R -> Prop) io deltaTime freeze chaosAmount now ch :
  P (chaosMod ch) ->
  P (newChaos (uniformTrigger io)) ->
  P (newChaos (uniformSync io)) ->
  P (newChaos (uniformCycle io)) ->
  P (chaosMod (processSlope io deltaTime freeze chaosAmount now ch)).
Proof.
  intros H0 Ht Hs Hc.
  assert (H1 : P (chaosMod (triggerBlock io ch))).
  { unfold triggerBlock.
    destruct (negb (isConnected (trigInput io)));
      destruct (currentTrigger io); simpl; auto.
    - destruct (triggerAccepted (trigModeParam io) (resetNeutral ch)); simpl; auto.
    - destruct (prevTrigger ch); simpl; auto.
      destruct (triggerAccepted (trigModeParam io) ch); simpl; auto. }
  assert (H2 : P (chaosMod (afterEdges io now ch))).
  { unfold afterEdges. destruct (syncEdge io (triggerBlock io ch)) eqn:He.
    - rewrite syncBlock_edge by exact He. exact Hs.
    - rewrite syncBlock_quiet by exact He. exact H1. }
  unfold processSlope. fold (afterEdges io now ch). destruct freeze; [exact H2|].
  revert H2. generalize (afterEdges io now ch). intros ch1 H2.
  unfold advance, publish, endOfCycle, breakpointCheck, advancePhase.
  generalize (advancedPhase io deltaTime chaosAmount ch1). intros p1.
  destruct (breakpointTriggered io (withPhase p1 ch1)); simpl;
    destruct (Rgeb p1 1); simpl; auto;
    destruct (rising ch1); simpl; auto;
    destruct (autoRestart io); simpl; auto.
Qed.

Lemma newChaos_range (u : R) : 0 <= u <= 1 -> -1 <= newChaos u <= 1.
Proof. unfold newChaos. lra. Qed.

Lemma run_seed_range ts m :
  Forall (fun t => drawsInUnit (ioA t) /\ drawsInUnit (ioB t)) ts ->
  -1 <= chaosMod (slopeA m) <= 1 -> -1 <= chaosMod (slopeB m) <= 1 ->
  -1 <= chaosMod (slopeA (run ts m)) <= 1 /\
  -1 <= chaosMod (slopeB (run ts m)) <= 1.
Proof.
  revert m. induction ts as [|t ts IH]; intros m Hts HA HB; [simpl; auto|].
  inversion Hts as [|? ? [(Ha1 & Ha2 & Ha3) (Hb1 & Hb2 & Hb3)] Hrest]; subst.
  cbn [run]. apply IH; [exact Hrest | rewrite slopeA_step | rewrite slopeB_step];
    apply processSlope_chaosMod_cases with (P := fun x => -1 <= x <= 1);
    auto using newChaos_range.
Qed.

(** X4.  As long as every draw of [random::uniform()] lies in [0, 1], the
    chaos seed of both channels stays in [-1, 1] through every run from the
    initial state, so that a chaos amount in [0, 1] scales the stage times
    by a factor between 0 and 2. *)
Theorem chaos_seed_range (uA uB : R) (ts : list Tick) :
  0 <= uA <= 1 -> 0 <= uB <= 1 ->
  Forall (fun t => drawsInUnit (ioA t) /\ drawsInUnit (ioB t)) ts ->
  forall s,
    -1 <= chaosMod (slopeOf s (run ts (initMatho uA uB))) <= 1 /\
    forall chaosAmount, 0 <= chaosAmount <= 1 ->
      0 <= 1.0 + chaosEffect chaosAmount (slopeOf s (run ts (initMatho uA uB))) * 1.0 <= 2.
Proof.
  intros HuA HuB Hts s.
  destruct (run_seed_range ts (initMatho uA uB) Hts) as [HA HB];
    try (simpl; now apply newChaos_range).
  assert (Hs : -1 <= chaosMod (slopeOf s (run ts (initMatho uA uB))) <= 1)
    by (destruct s; assumption).
  split; [exact Hs|].
  intros chaosAmount Hc. unfold chaosEffect. nra.
Qed.

Lemma chaos_seed_range_witness :
  let io := panel (cableAt 5) noCable 0 0 0.5 in
  -1 <= chaosMod (slopeA (run [tickA io 0.1 0; tickA io 0.1 0] (initMatho 0.25 0.75))) <= 1.
Proof.
  cbv zeta.
  apply (chaos_seed_range 0.25 0.75
           [tickA (panel (cableAt 5) noCable 0 0 0.5) 0.1 0;
            tickA (panel (cableAt 5) noCable 0 0 0.5) 0.1 0]
           ltac:(lra) ltac:(lra)
           ltac:(repeat constructor; fields_simpl; lra) SideA).
Defined.

(** ** Rise stays short of 1 *)

Lemma processSlope_rising_below_one io deltaTime freeze chaosAmount now ch :
  (rising ch = true -> phase ch < 1) ->
  rising (processSlope io deltaTime freeze chaosAmount now ch) = true ->
  phase (processSlope io deltaTime freeze chaosAmount now ch) < 1.
Proof.
  intros H0.
  assert (H1 : rising (triggerBlock io ch) = true -> phase (triggerBlock io ch) < 1).
  { unfold triggerBlock.
    destruct (negb (isConnected (trigInput io)));
      destruct (currentTrigger io); simpl; try lra; auto.
    - destruct (triggerAccepted (trigModeParam io) (resetNeutral ch)); simpl; lra.
    - destruct (prevTrigger ch); simpl; auto.
      destruct (triggerAccepted (trigModeParam io) ch); simpl; auto. lra. }
  assert (H2 : rising (afterEdges io now ch) = true -> phase (afterEdges io now ch) < 1).
  { unfold afterEdges. destruct (syncEdge io (triggerBlock io ch)) eqn:He.
    - rewrite syncBlock_edge by exact He. simpl. lra.
    - rewrite syncBlock_quiet by exact He. exact H1. }
  unfold processSlope. fold (afterEdges io now ch). destruct freeze; [exact H2|].
  rewrite advance_rising, advance_phase.
  destruct (Rgeb (advancedPhase io deltaTime chaosAmount (afterEdges io now ch)) 1) eqn:Hw.
  - destruct (rising (afterEdges io now ch)); [discriminate|].
    intros ->. lra.
  - intros _. now apply Rgeb_false_iff in Hw.
Qed.

(** X5.  From the initial state, after any run, a channel in the rise stage
    has its phase below 1 (the tick that carries the phase to 1 turns the
    stage to fall).  Hence mode 1 (Rise Only) accepts a trigger edge exactly
    when the channel is rising, and mode 2 (Fall Only) accepts every edge of
    the fall stage that mode 3 (Complete Only) rejects. *)
Theorem rise_phase_below_one (uA uB : R) (ts : list Tick) (s : Side) :
  let ch := slopeOf s (run ts (initMatho uA uB)) in
  (rising ch = true -> phase ch < 1) /\
  triggerAccepted 1 ch = rising ch /\
  (rising ch = false -> triggerAccepted 2 ch = negb (triggerAccepted 3 ch)).
Proof.
  intros ch.
  assert (Hinv : rising ch = true -> phase ch < 1).
  { destruct (run_invariant (fun c => rising c = true -> phase c < 1) (fun _ => True))
      with (ts := ts) (m := initMatho uA uB) as [HA HB].
    - intros. now apply (processSlope_rising_below_one io (sampleTime t) fr ca now ch0).
    - apply Forall_forall. trivial.
    - simpl. discriminate.
    - simpl. discriminate.
    - unfold ch. destruct s; assumption. }
  split; [exact Hinv|]. split.
  - simpl. destruct (rising ch) eqn:Hr; [|reflexivity].
    cbn [andb]. apply Rltb_true_iff. now apply Hinv.
  - intros Hr. simpl. rewrite Hr. cbn [negb andb].
    unfold Rltb, Rgeb.
    destruct (Rlt_dec (phase ch) 1); destruct (Rle_dec 1 (phase ch));
      simpl; try reflexivity; lra.
Qed.

(** ** The end of a stage *)

Lemma breakpointPhase_bounds io : 0 <= breakpointPhase io <= 1.9998.
Proof.
  unfold breakpointPhase, breakpointOf.
  set (x := breakpointParam io + getVoltage (breakpointCvInput io) * 0.1).
  pose proof (clamp_bounds x 0 0.9999 ltac:(lra)) as Hb.
  rewrite (clamp_inside (clamp x 0 0.9999)) by lra. lra.
Qed.

Lemma advance_chaosMod io deltaTime chaosAmount now ch :
  chaosMod (advance io deltaTime chaosAmount now ch) =
  if fallCompletes (advancePhase io deltaTime chaosAmount ch) && autoRestart io
  then newChaos (uniformCycle io) else chaosMod ch.
Proof.
  rewrite fallCompletes_advancePhase.
  unfold advance, publish, endOfCycle, breakpointCheck, advancePhase.
  generalize (advancedPhase io deltaTime chaosAmount ch). intros p1.
  destruct (breakpointTriggered io (withPhase p1 ch)); simpl;
    destruct (Rgeb p1 1); simpl; try reflexivity;
    destruct (rising ch); simpl; try reflexivity;
    destruct (autoRestart io); reflexivity.
Qed.

Lemma advance_breakpointLight io deltaTime chaosAmount now ch :
  breakpointLight (advance io deltaTime chaosAmount now ch) =
  if breakpointTriggered io (advancePhase io deltaTime chaosAmount ch)
  then 1.0 else 0.0.
Proof. reflexivity. Qed.

Lemma slopeValueAt_ends (c : R) :
  slopeValueAt c true 0 = 0 /\ slopeValueAt c false 0 = 1 /\
  slopeValueAt c false 1 = 0.
Proof.
  unfold slopeValueAt. rewrite !rawPhaseAt_applyCurve, applyCurve_zero, applyCurve_one.
  repeat split; lra.
Qed.

(** X6.  What a running tick does when the advanced phase reaches 1.  In the
    rise stage the channel turns to fall at phase 0 and publishes the value
    1.  In the fall stage it publishes the value 0 and either restarts
    (cycle switch on, no sync cable: rising, phase 0, the seed drawn for
    the restart) or rests at phase 1; with the sync cable plugged it always
    rests.  Below 1 the stage is kept and the phase is the advanced one. *)
Theorem stage_turns (io : SlopeIO) (deltaTime chaosAmount now : R) (ch : Channel) :
  let ch1 := afterEdges io now ch in
  let p1 := advancedPhase io deltaTime chaosAmount ch1 in
  let ch' := processSlope io deltaTime false chaosAmount now ch in
  (1 <= p1 -> rising ch1 = true ->
   rising ch' = false /\ phase ch' = 0 /\ value ch' = 1) /\
  (1 <= p1 -> rising ch1 = false ->
   value ch' = 0 /\ rising ch' = autoRestart io /\
   phase ch' = (if autoRestart io then 0 else 1) /\
   chaosMod ch' = (if autoRestart io then newChaos (uniformCycle io)
                   else chaosMod ch1)) /\
  (syncEnabled io = true -> autoRestart io = false) /\
  (p1 < 1 -> rising ch' = rising ch1 /\ phase ch' = p1).
Proof.
  intros ch1 p1 ch'.
  assert (Hp : phase ch' =
               if Rgeb p1 1
               then (if rising ch1 then 0 else if autoRestart io then 0 else 1)
               else p1) by apply advance_phase.
  assert (Hr : rising ch' =
               if Rgeb p1 1
               then (if rising ch1 then false else autoRestart io)
               else rising ch1) by apply advance_rising.
  assert (Hv : value ch' = slopeValueAt (curveOf io chaosAmount ch1)
                                        (rising ch') (phase ch')) by reflexivity.
  assert (Hc : chaosMod ch' =
               if (Rgeb p1 1 && negb (rising ch1)) && autoRestart io
               then newChaos (uniformCycle io) else chaosMod ch1).
  { unfold ch', processSlope. fold (afterEdges io now ch). fold ch1.
    rewrite advance_chaosMod, fallCompletes_advancePhase. reflexivity. }
  destruct (slopeValueAt_ends (curveOf io chaosAmount ch1)) as (Hv0 & Hv1 & Hv2).
  split; [|split; [|split]].
  - intros Hw Hup. apply Rgeb_true_iff in Hw. rewrite Hw, Hup in Hp, Hr.
    rewrite Hv, Hr, Hp. auto.
  - intros Hw Hdown. apply Rgeb_true_iff in Hw. rewrite Hw, Hdown in Hp, Hr, Hc.
    cbn [negb andb] in Hc. rewrite Hv, Hr, Hp, Hc.
    destruct (autoRestart io); auto.
  - intros Hs. unfold autoRestart. rewrite Hs. apply andb_false_r.
  - intros Hw. apply Rgeb_false_iff in Hw. rewrite Hw in Hp, Hr. auto.
Qed.

Lemma stage_turns_witness :
  let io := panel (cableAt 0) noCable 0 1 0.5 in
  (rising (processSlope io 0.1 false 0 3 (stageAt true 0.95 true)) = false /\
   phase (processSlope io 0.1 false 0 3 (stageAt true 0.95 true)) = 0 /\
   value (processSlope io 0.1 false 0 3 (stageAt true 0.95 true)) = 1) /\
  (value (processSlope io 0.1 false 0 3 (stageAt false 0.95 true)) = 0 /\
   rising (processSlope io 0.1 false 0 3 (stageAt false 0.95 true)) = true).
Proof.
  cbv zeta.
  set (io := panel (cableAt 0) noCable 0 1 0.5).
  assert (Hauto : autoRestart io = true).
  { unfold autoRestart, io. fields_simpl. now Rbool. }
  assert (Hp : forall ch, phase ch = 0.95 ->
                 1 <= advancedPhase io 0.1 0 (afterEdges io 3 ch)).
  { intros ch Hch. unfold io. rewrite panel_advancedPhase by reflexivity.
    rewrite quiet_panel_edges. fields_simpl. lra. }
  split.
  - apply (proj1 (stage_turns io 0.1 0 3 (stageAt true 0.95 true))).
    + now apply Hp.
    + unfold io. now rewrite quiet_panel_edges.
  - destruct (proj1 (proj2 (stage_turns io 0.1 0 3 (stageAt false 0.95 true))))
      as (Hv & Hr & _).
    + now apply Hp.
    + unfold io. now rewrite quiet_panel_edges.
    + rewrite Hr, Hauto. auto.
Defined.

(** X7.  With the trigger cable plugged and the cycle switch off or the
    sync cable plugged, a channel at rest (fall stage, phase 1, value 0,
    nothing latched) is still at rest after a running tick that sees no
    accepted trigger and no sync edge; on each such tick the end light and
    the breakpoint light are lit.  (Without a trigger cable the reset of
    line 410 takes the channel out of rest.) *)
Theorem rest_is_stable (io : SlopeIO) (deltaTime chaosAmount now : R) (ch : Channel) :
  isConnected (trigInput io) = true ->
  acceptedTrigger io ch = false -> syncEdge io ch = false ->
  autoRestart io = false -> 0 < deltaTime -> atRest ch ->
  let ch' := processSlope io deltaTime false chaosAmount now ch in
  atRest ch' /\ endLight ch' = 1 /\ breakpointLight ch' = 1.
Proof.
  intros Hc Ha Hs Hauto Hd (Hr & Hp & Hv & Hb) ch'.
  pose proof (afterEdges_quiet io now ch Hc Ha Hs) as He.
  set (ch1 := afterEdges io now ch) in *.
  assert (Hr1 : rising ch1 = false) by now rewrite He.
  assert (Hb1 : breakpointPulse ch1 = false) by now rewrite He.
  assert (Hp1 : 1 <= advancedPhase io deltaTime chaosAmount ch1).
  { pose proof (phase_step_pos io deltaTime chaosAmount ch1 Hd).
    unfold advancedPhase. replace (phase ch1) with 1 by now rewrite He. lra. }
  assert (Hfall : fallCompletes (advancePhase io deltaTime chaosAmount ch1) = true).
  { rewrite fallCompletes_advancePhase, Hr1.
    now rewrite (proj2 (Rgeb_true_iff _ _)) by exact Hp1. }
  assert (Hphase : phase ch' = 1).
  { unfold ch', processSlope. fold (afterEdges io now ch). fold ch1.
    rewrite advance_phase, Hr1, Hauto.
    now rewrite (proj2 (Rgeb_true_iff _ _)) by exact Hp1. }
  assert (Hrising : rising ch' = false).
  { unfold ch', processSlope. fold (afterEdges io now ch). fold ch1.
    rewrite advance_rising, Hr1, Hauto.
    now rewrite (proj2 (Rgeb_true_iff _ _)) by exact Hp1. }
  assert (Hvalue : value ch' = 0).
  { change (value ch') with (slopeValueAt (curveOf io chaosAmount ch1)
                                            (rising ch') (phase ch')).
    rewrite Hrising, Hphase. apply slopeValueAt_ends. }
  repeat split; try assumption.
  - unfold ch', processSlope. fold (afterEdges io now ch). fold ch1.
    now rewrite advance_breakpointPulse, Hfall.
  - unfold ch', processSlope. fold (afterEdges io now ch). fold ch1.
    rewrite advance_endLight, Hfall. lra.
  - unfold ch', processSlope. fold (afterEdges io now ch). fold ch1.
    rewrite advance_breakpointLight. unfold breakpointTriggered.
    assert (Hcp : breakpointPhase io
                  <= cyclePhase (advancePhase io deltaTime chaosAmount ch1)).
    { pose proof (breakpointPhase_bounds io).
      unfold cyclePhase, advancePhase. cbn [rising phase withPhase].
      rewrite Hr1. lra. }
    rewrite (proj2 (Rgeb_true_iff _ _)) by exact Hcp.
    cbn [advancePhase withPhase breakpointPulse]. rewrite Hb1. simpl. lra.
Qed.

Lemma rest_is_stable_witness :
  let io := panel (cableAt 0) noCable 0 0 0.5 in
  let ch' := processSlope io 0.1 false 0 3 (stageAt false 1 false) in
  atRest ch' /\ endLight ch' = 1 /\ breakpointLight ch' = 1.
Proof.
  cbv zeta.
  set (io := panel (cableAt 0) noCable 0 0 0.5).
  assert (Hlow : currentTrigger io = false).
  { unfold currentTrigger, io. fields_simpl. now Rbool. }
  apply (rest_is_stable io 0.1 0 3 (stageAt false 1 false)).
  - reflexivity.
  - unfold acceptedTrigger, triggerEdge. now rewrite Hlow.
  - reflexivity.
  - unfold autoRestart, io. fields_simpl. now Rbool.
  - lra.
  - unfold atRest. fields_simpl. repeat split; lra.
Defined.

(** ** The breakpoint within a cycle *)

(** X8.  The breakpoint threshold lies below the end of the cycle (at most
    1.9998 of 2), so the tick that completes the fall finds the pulse
    already latched or lights the breakpoint light itself: no complete
    cycle passes without the breakpoint. *)
Theorem breakpoint_before_cycle_end
        (io : SlopeIO) (deltaTime chaosAmount now : R) (ch : Channel) :
  completesFall io deltaTime false chaosAmount now ch = true ->
  breakpointPulse (afterEdges io now ch) = false ->
  breakpointLight (processSlope io deltaTime false chaosAmount now ch) = 1.
Proof.
  unfold completesFall, processSlope. fold (afterEdges io now ch).
  generalize (afterEdges io now ch). intros ch1 Hfall Hb.
  cbn [negb andb] in Hfall. rewrite fallCompletes_advancePhase in Hfall.
  apply andb_true_iff in Hfall. destruct Hfall as [Hw Hr].
  apply Rgeb_true_iff in Hw. apply negb_true_iff in Hr.
  rewrite advance_breakpointLight. unfold breakpointTriggered.
  assert (Hcp : breakpointPhase io
                <= cyclePhase (advancePhase io deltaTime chaosAmount ch1)).
  { pose proof (breakpointPhase_bounds io).
    unfold cyclePhase, advancePhase. cbn [rising phase withPhase].
    rewrite Hr. lra. }
  rewrite (proj2 (Rgeb_true_iff _ _)) by exact Hcp.
  cbn [advancePhase withPhase breakpointPulse]. rewrite Hb. simpl. lra.
Qed.

Lemma breakpoint_before_cycle_end_witness :
  breakpointLight (processSlope (panel (cableAt 0) noCable 0 0 0.9999) 0.1 false 0 3
                                (stageAt false 0.95 false)) = 1.
Proof.
  apply breakpoint_before_cycle_end.
  - rewrite quiet_panel_fallCompletes. fields_simpl. now Rbool.
  - now rewrite quiet_panel_edges.
Defined.

(** ** Edge detection from tick to tick *)

Lemma processSlope_prevTrigger io deltaTime freeze chaosAmount now ch :
  prevTrigger (processSlope io deltaTime freeze chaosAmount now ch)
  = currentTrigger io.
Proof.
  assert (H : prevTrigger (afterEdges io now ch) = currentTrigger io).
  { unfold afterEdges. destruct (syncEdge io (triggerBlock io ch)) eqn:He.
    - rewrite syncBlock_edge by exact He. fields_simpl.
      destruct (Rgtb (lastSyncTime (triggerBlock io ch)) 0); reflexivity.
    - rewrite syncBlock_quiet by exact He. reflexivity. }
  unfold processSlope. fold (afterEdges io now ch). destruct freeze; [exact H|].
  now destruct (advance_sync_fields io deltaTime chaosAmount now (afterEdges io now ch))
    as (-> & _).
Qed.

(** X9.  Every tick, frozen or running, stores the trigger and sync levels
    it saw, so the next tick sees an edge exactly when its level is high
    and the level of this tick was low: a level held high over several
    ticks restarts the channel once. *)
Theorem edges_need_a_low_tick
        (io next : SlopeIO) (deltaTime : R) (freeze : bool)
        (chaosAmount now : R) (ch : Channel) :
  let ch' := processSlope io deltaTime freeze chaosAmount now ch in
  triggerEdge next ch' = (currentTrigger next && negb (currentTrigger io))%bool /\
  syncEdge next ch'
  = (syncEnabled next && currentSync next && negb (currentSync io))%bool /\
  (currentTrigger io = true -> acceptedTrigger next ch' = false).
Proof.
  intros ch'. unfold acceptedTrigger, triggerEdge, syncEdge, ch'.
  rewrite processSlope_prevTrigger, processSlope_prevSync.
  repeat split. intros ->. now rewrite andb_false_r.
Qed.

(** ** The integral *)

(** X10.  On a tick that finds the trigger cable plugged, from a channel
    with phase and value in [0, 1], the integral never decreases and grows
    by at most [deltaTime]; a frozen tick leaves it as it is. *)
Theorem integral_grows_slowly
        (io : SlopeIO) (deltaTime : R) (freeze : bool) (chaosAmount now : R)
        (ch : Channel) :
  isConnected (trigInput io) = true -> inRange ch -> 0 < deltaTime ->
  let ch' := processSlope io deltaTime freeze chaosAmount now ch in
  integral ch <= integral ch' <= integral ch + deltaTime /\
  (freeze = true -> integral ch' = integral ch).
Proof.
  intros Hc Hin Hd ch'.
  destruct (afterEdges_keeps_estimates io now ch Hc) as [_ Hi].
  pose proof (syncBlock_inRange io now _ (triggerBlock_inRange io ch Hin)) as [[Hp _] _].
  fold (afterEdges io now ch) in Hp.
  unfold ch', processSlope. fold (afterEdges io now ch).
  destruct freeze.
  - rewrite Hi. split; [lra | reflexivity].
  - rewrite advance_integral, Hi.
    pose proof (advance_value_unit_interval io deltaTime chaosAmount now
                  (afterEdges io now ch) Hp Hd) as Hv.
    split; [nra | discriminate].
Qed.

Lemma integral_grows_slowly_witness :
  let io := panel (cableAt 0) noCable 0 0 0.5 in
  let ch := stageAt true 0.3 false in
  integral ch <= integral (processSlope io 0.1 false 0 3 ch) <= integral ch + 0.1.
Proof.
  cbv zeta.
  apply (integral_grows_slowly (panel (cableAt 0) noCable 0 0 0.5) 0.1 false 0 3
                               (stageAt true 0.3 false)).
  - reflexivity.
  - unfold inRange. fields_simpl. lra.
  - lra.
Defined.

(** ** The mixer and the output voltages *)

(** X11.  For a mix knob in [0, 1] the Mix output lies between the MIN and
    the MAX output, it is the slope output of A at 0 and of B at 1, and the
    MIN and MAX outputs add up to the SUM output. *)
Theorem mixer_between_min_and_max (mix : R) (a b : Channel) :
  0 <= mix <= 1 ->
  let o := outputsOf mix a b in
  MIN_OUTPUT o <= MIX_OUTPUT o <= MAX_OUTPUT o /\
  MIN_OUTPUT o + MAX_OUTPUT o = SUM_OUTPUT o /\
  MIX_OUTPUT (outputsOf 0 a b) = A_SLOPE_OUTPUT o /\
  MIX_OUTPUT (outputsOf 1 a b) = B_SLOPE_OUTPUT o.
Proof.
  intros Hm o. unfold o, outputsOf.
  cbn [MIN_OUTPUT MAX_OUTPUT MIX_OUTPUT SUM_OUTPUT A_SLOPE_OUTPUT B_SLOPE_OUTPUT].
  unfold Rmin, Rmax. destruct (Rle_dec (value a) (value b)); repeat split; nra.
Qed.

Lemma mixer_between_min_and_max_witness :
  let o := outputsOf 0.5 (stageAt true 0.3 false) (stageAt true 0.7 false) in
  MIN_OUTPUT o <= MIX_OUTPUT o <= MAX_OUTPUT o.
Proof.
  cbv zeta.
  apply (mixer_between_min_and_max 0.5 (stageAt true 0.3 false)
                                   (stageAt true 0.7 false)).
  lra.
Defined.

Lemma trace_inRange ts m :
  Forall (fun t => 0 < sampleTime t) ts ->
  inRange (slopeA m) -> inRange (slopeB m) ->
  Forall (fun o => 0 <= A_SLOPE_OUTPUT o <= 10 /\ 0 <= B_SLOPE_OUTPUT o <= 10 /\
                   0 <= MIN_OUTPUT o /\ MAX_OUTPUT o <= 10 /\
                   0 <= SUM_OUTPUT o <= 20)
         (trace ts m).
Proof.
  revert m. induction ts as [|t ts IH]; intros m Hts HA HB; [constructor|].
  inversion Hts as [|? ? Hd Hrest]; subst.
  assert (HA' : inRange (slopeA (step t m)))
    by (rewrite slopeA_step; now apply processSlope_inRange).
  assert (HB' : inRange (slopeB (step t m)))
    by (rewrite slopeB_step; now apply processSlope_inRange).
  cbn [trace]. constructor; [|now apply IH].
  destruct HA' as [_ Hva]. destruct HB' as [_ Hvb].
  change (snd (process t m))
    with (outputsOf (mixParam t) (slopeA (step t m)) (slopeB (step t m))).
  unfold outputsOf.
  cbn [MIN_OUTPUT MAX_OUTPUT SUM_OUTPUT A_SLOPE_OUTPUT B_SLOPE_OUTPUT].
  unfold Rmin, Rmax.
  destruct (Rle_dec (value (slopeA (step t m))) (value (slopeB (step t m))));
    repeat split; lra.
Qed.

(** X12.  From the initial state, on every tick of every run of positive
    [deltaTime], the two slope outputs and the MIN and MAX outputs lie in
    0 to 10 V and the SUM output in 0 to 20 V. *)
Theorem output_voltage_ranges (uA uB : R) (ts : list Tick) :
  Forall (fun t => 0 < sampleTime t) ts ->
  Forall (fun o => 0 <= A_SLOPE_OUTPUT o <= 10 /\ 0 <= B_SLOPE_OUTPUT o <= 10 /\
                   0 <= MIN_OUTPUT o /\ MAX_OUTPUT o <= 10 /\
                   0 <= SUM_OUTPUT o <= 20)
         (trace ts (initMatho uA uB)).
Proof.
  intros Hts. apply trace_inRange; [exact Hts | |]; apply initChannel_inRange.
Qed.

Lemma output_voltage_ranges_witness :
  let io := panel (cableAt 5) noCable 0 0 0.5 in
  Forall (fun o => 0 <= A_SLOPE_OUTPUT o <= 10 /\ 0 <= B_SLOPE_OUTPUT o <= 10 /\
                   0 <= MIN_OUTPUT o /\ MAX_OUTPUT o <= 10 /\
                   0 <= SUM_OUTPUT o <= 20)
         (trace [tickA io 0.1 0; tickA io 0.7 0] (initMatho 0.5 0.5)).
Proof.
  cbv zeta. apply output_voltage_ranges.
  repeat constructor; fields_simpl; lra.
Defined.

(** ** The freeze controller *)

(** X13.  A plugged freeze CV decides the freeze state whenever it is not
    exactly 2 V: above 2 V the channel is frozen, below it is not, whatever
    the button does; at exactly 2 V, as without a cable, the state is the
    one the button leaves. *)
Theorem freeze_cv_overrides (button : R) (cv : Port) (prevButton state : bool) :
  isConnected cv = true ->
  (2 < getVoltage cv -> freezeStep button cv prevButton state = true) /\
  (getVoltage cv < 2 -> freezeStep button cv prevButton state = false) /\
  (getVoltage cv = 2 ->
   freezeStep button cv prevButton state
   = freezeStep button noCable prevButton state).
Proof.
  intros Hc. unfold freezeStep. rewrite Hc. cbn [isConnected noCable plugged].
  repeat split; intros Hv; Rbool; reflexivity.
Qed.

Lemma freeze_cv_overrides_witness :
  freezeStep 0 (cableAt 5) false false = true /\
  freezeStep 1 (cableAt 0) false false = false /\
  freezeStep 1 (cableAt 2) false false = freezeStep 1 noCable false false.
Proof.
  destruct (freeze_cv_overrides 0 (cableAt 5) false false eq_refl) as (H1 & _).
  destruct (freeze_cv_overrides 1 (cableAt 0) false false eq_refl) as (_ & H2 & _).
  destruct (freeze_cv_overrides 1 (cableAt 2) false false eq_refl) as (_ & _ & H3).
  repeat split; [apply H1 | apply H2 | apply H3];
    cbn [getVoltage cableAt plugged cable]; lra.
Defined.

(** X14.  Without a freeze CV cable, and as long as the calls of [process]
    on the instance follow one another with no call of another instance in
    between, the button toggles the freeze state of channel A on the tick
    it goes down and on no other: while it is held the state stays, and a
    press, a release and a second press restore the state before the
    first.  The flag that remembers the button is a static, one for all
    instances: when a call of a second instance whose button is up comes
    between two calls, the held button toggles the state a second time. *)
Theorem freeze_button_toggles (t1 t2 t3 u : Tick) (p : Patch) :
  isConnected (freezeACv t1) = false ->
  isConnected (freezeACv t2) = false ->
  isConnected (freezeACv t3) = false ->
  staticPrevFreezeA (statics p) = false ->
  0.5 < freezeAButton t1 ->
  0.5 < freezeAButton t3 ->
  frozenFirst (stepIn First t1 p) = negb (frozenFirst p) /\
  frozenFirst (stepIn First t2 (stepIn First t1 p))
  = frozenFirst (stepIn First t1 p) /\
  (freezeAButton t2 <= 0.5 ->
   frozenFirst (stepIn First t3 (stepIn First t2 (stepIn First t1 p)))
   = frozenFirst p) /\
  (freezeAButton u <= 0.5 ->
   frozenFirst (stepIn First t3 (stepIn Second u (stepIn First t1 p)))
   = frozenFirst p).
Proof.
  intros Hc1 Hc2 Hc3 Hprev Hb1 Hb3.
  assert (Hstep : forall i t q,
             frozenFirst (stepIn i t q) =
             match i with
             | First => freezeStep (freezeAButton t) (freezeACv t)
                                   (staticPrevFreezeA (statics q)) (frozenFirst q)
             | Second => frozenFirst q
             end) by (intros [] t q; reflexivity).
  assert (Hflag : forall i t q,
             staticPrevFreezeA (statics (stepIn i t q)) = Rgtb (freezeAButton t) 0.5)
    by (intros [] t q; reflexivity).
  assert (H1 : frozenFirst (stepIn First t1 p) = negb (frozenFirst p)).
  { rewrite Hstep. unfold freezeStep. rewrite Hc1, Hprev. now Rbool. }
  assert (H2 : frozenFirst (stepIn First t2 (stepIn First t1 p))
               = frozenFirst (stepIn First t1 p)).
  { rewrite (Hstep First t2). unfold freezeStep. rewrite Hc2, Hflag.
    rewrite (proj2 (Rgtb_true_iff (freezeAButton t1) 0.5)) by exact Hb1.
    cbn [negb]. now rewrite andb_false_r. }
  split; [exact H1|]. split; [exact H2|]. split.
  - intros Hb2. rewrite (Hstep First t3). unfold freezeStep.
    rewrite Hc3, Hflag, H2, H1. Rbool. cbn [negb andb]. apply negb_involutive.
  - intros Hu. rewrite (Hstep First t3). unfold freezeStep.
    rewrite Hc3, Hflag, (Hstep Second u), H1. Rbool. cbn [negb andb].
    apply negb_involutive.
Qed.

(** Two instances, nothing frozen, the button of the first held down and
    that of the second up. *)
Lemma freeze_button_toggles_witness :
  let io := panel (cableAt 0) noCable 0 0 0.5 in
  let m := moduleAt (stageAt true 0.5 false) in
  let p := mkPatch (mkStatics false false) m m in
  let held := tickA io 0.1 1 in
  let up := tickA io 0.1 0 in
  frozenFirst (stepIn First held p) = true /\
  frozenFirst (stepIn First held (stepIn First held p)) = true /\
  frozenFirst (stepIn First held (stepIn First up (stepIn First held p))) = false /\
  frozenFirst (stepIn First held (stepIn Second up (stepIn First held p))) = false.
Proof.
  cbv zeta.
  set (io := panel (cableAt 0) noCable 0 0 0.5).
  set (m := moduleAt (stageAt true 0.5 false)).
  set (p := mkPatch (mkStatics false false) m m).
  set (held := tickA io 0.1 1). set (up := tickA io 0.1 0).
  assert (Hheld : 0.5 < freezeAButton held) by (unfold held; fields_simpl; lra).
  assert (Hup : freezeAButton up <= 0.5) by (unfold up; fields_simpl; lra).
  destruct (freeze_button_toggles held held held up p eq_refl eq_refl eq_refl
                                  eq_refl Hheld Hheld) as (H1 & H2 & _ & H4).
  destruct (freeze_button_toggles held up held up p eq_refl eq_refl eq_refl
                                  eq_refl Hheld Hheld) as (_ & _ & H3 & _).
  split; [exact H1|]. split; [rewrite H2; exact H1|].
  split; [exact (H3 Hup) | exact (H4 Hup)].
Defined.

(** ** The two channels do not interfere *)

Lemma sameStateA_step t1 t2 m1 m2 :
  sameSideA t1 t2 -> sameStateA m1 m2 -> sameStateA (step t1 m1) (step t2 m2).
Proof.
  intros (Hd & Hio & Hb & Hcv & Hcp & Hcc) (Hs & Hf & Hp & Hn).
  assert (Hfr : frozenA t1 m1 = frozenA t2 m2).
  { unfold frozenA. now rewrite Hb, Hcv, Hp, Hf. }
  unfold sameStateA. repeat split.
  - rewrite !slopeA_step. now rewrite Hd, Hio, Hfr, Hcp, Hcc, Hn, Hs.
  - exact Hfr.
  - change (Rgtb (freezeAButton t1) 0.5 = Rgtb (freezeAButton t2) 0.5).
    now rewrite Hb.
  - rewrite !currentTime_step. now rewrite Hn, Hd.
Qed.

(** With the chaos amount at 0 nothing but the seed itself depends on the
    seed and on the draws: a call of [processSlope] on a channel with the
    seed erased, with the draws erased, gives the same channel up to the
    seed. *)
Lemma triggerBlock_erase io ch :
  withChaosMod 0 (triggerBlock io ch)
  = withChaosMod 0 (triggerBlock (withDraws 0 0 0 io) (withChaosMod 0 ch)).
Proof.
  unfold triggerBlock, currentTrigger, isConnected.
  cbn [withDraws trigInput trigModeParam uniformTrigger].
  destruct (negb (plugged (trigInput io))); cbn [withChaosMod prevTrigger resetNeutral];
  destruct (Rgtb (getVoltage (trigInput io)) 0.5); cbn [andb].
  all: try reflexivity.
  - destruct (trigModeParam io) as [|[p|p|]|]; cbn; try reflexivity.
    all: repeat match goal with |- context [if ?c then _ else _] => destruct c end;
      try reflexivity.
  - destruct (prevTrigger ch); cbn [negb]; try reflexivity.
    unfold triggerAccepted. cbn [withChaosMod rising phase].
    destruct (trigModeParam io) as [|[[p|p|]|[p|p|]|]|]; try reflexivity.
    all: repeat match goal with |- context [if ?c then _ else _] => destruct c end;
      try reflexivity.
Qed.

Lemma syncBlock_erase io now ch :
  withChaosMod 0 (syncBlock io now ch)
  = withChaosMod 0 (syncBlock (withDraws 0 0 0 io) now (withChaosMod 0 ch)).
Proof.
  unfold syncBlock, syncEnabled, currentSync, isConnected.
  cbn [withDraws syncInput uniformSync].
  destruct (negb (plugged (syncInput io)));
    cbn [withChaosMod withPrevSync prevSync lastSyncTime];
    repeat match goal with |- context [if ?c then _ else _] => destruct c end;
    reflexivity.
Qed.

Lemma stageTime_erase io chaosAmount ch knob :
  chaosAmount <= 0 ->
  stageTime (withDraws 0 0 0 io) chaosAmount (withChaosMod 0 ch) knob
  = stageTime io chaosAmount ch knob.
Proof.
  intros H. unfold stageTime, rateOffset.
  rewrite (proj2 (Rgtb_false_iff _ _)) by exact H. reflexivity.
Qed.

Lemma envelopeTimeOf_erase io chaosAmount ch :
  chaosAmount <= 0 ->
  envelopeTimeOf (withDraws 0 0 0 io) chaosAmount (withChaosMod 0 ch)
  = envelopeTimeOf io chaosAmount ch.
Proof.
  intros H. unfold envelopeTimeOf, riseTimeOf, fallTimeOf.
  rewrite !stageTime_erase by exact H. reflexivity.
Qed.

Lemma curveOf_erase io chaosAmount ch :
  chaosAmount <= 0 ->
  curveOf (withDraws 0 0 0 io) chaosAmount (withChaosMod 0 ch)
  = curveOf io chaosAmount ch.
Proof.
  intros H. unfold curveOf.
  rewrite (proj2 (Rgtb_false_iff _ _)) by exact H. reflexivity.
Qed.

Lemma Channel_ext (a b : Channel) :
  phase a = phase b -> value a = value b -> derivative a = derivative b ->
  integral a = integral b -> rising a = rising b -> endPulse a = endPulse b ->
  breakpointPulse a = breakpointPulse b -> prevTrigger a = prevTrigger b ->
  chaosMod a = chaosMod b -> prevSync a = prevSync b ->
  lastSyncTime a = lastSyncTime b -> syncPeriod a = syncPeriod b ->
  activeLight a = activeLight b -> endLight a = endLight b ->
  breakpointLight a = breakpointLight b -> a = b.
Proof. destruct a, b; simpl; intros; subst; reflexivity. Qed.

Lemma advance_erase io deltaTime chaosAmount now ch :
  chaosAmount <= 0 ->
  withChaosMod 0 (advance io deltaTime chaosAmount now ch)
  = withChaosMod 0 (advance (withDraws 0 0 0 io) deltaTime chaosAmount now
                            (withChaosMod 0 ch)).
Proof.
  intros H.
  set (io0 := withDraws 0 0 0 io). set (ch0 := withChaosMod 0 ch).
  assert (Hadv : advancedPhase io0 deltaTime chaosAmount ch0
                 = advancedPhase io deltaTime chaosAmount ch).
  { unfold advancedPhase, io0, ch0. now rewrite envelopeTimeOf_erase by exact H. }
  assert (Hcurve : curveOf io0 chaosAmount ch0 = curveOf io chaosAmount ch)
    by (now apply curveOf_erase).
  assert (Hp : phase (advance io deltaTime chaosAmount now ch)
               = phase (advance io0 deltaTime chaosAmount now ch0)).
  { rewrite !advance_phase, Hadv. reflexivity. }
  assert (Hr : rising (advance io deltaTime chaosAmount now ch)
               = rising (advance io0 deltaTime chaosAmount now ch0)).
  { rewrite !advance_rising, Hadv. reflexivity. }
  assert (Hv : value (advance io deltaTime chaosAmount now ch)
               = value (advance io0 deltaTime chaosAmount now ch0)).
  { rewrite !advance_value, Hcurve, Hp, Hr. reflexivity. }
  assert (Hfall : fallCompletes (advancePhase io0 deltaTime chaosAmount ch0)
                  = fallCompletes (advancePhase io deltaTime chaosAmount ch)).
  { rewrite !fallCompletes_advancePhase, Hadv. reflexivity. }
  assert (Hcyc : cyclePhase (advancePhase io0 deltaTime chaosAmount ch0)
                 = cyclePhase (advancePhase io deltaTime chaosAmount ch)).
  { unfold cyclePhase, advancePhase. rewrite Hadv. reflexivity. }
  destruct (advance_sync_fields io deltaTime chaosAmount now ch)
    as (Ht & Hs & Hl & Hsp).
  destruct (advance_sync_fields io0 deltaTime chaosAmount now ch0)
    as (Ht0 & Hs0 & Hl0 & Hsp0).
  apply Channel_ext;
    cbn [withChaosMod phase value derivative integral rising endPulse
         breakpointPulse prevTrigger chaosMod prevSync lastSyncTime syncPeriod
         activeLight endLight breakpointLight]; try assumption; try reflexivity.
  all: try solve [rewrite !advance_derivative, Hcurve, Hp, Hr, Hv; reflexivity].
  all: try solve [rewrite !advance_integral, Hv; reflexivity].
  all: try solve [rewrite !advance_breakpointPulse, Hfall, Hcyc; reflexivity].
  all: try solve [rewrite Ht, Ht0; reflexivity].
  all: try solve [rewrite Hs, Hs0; reflexivity].
  all: try solve [rewrite Hl, Hl0; reflexivity].
  all: try solve [rewrite Hsp, Hsp0; reflexivity].
  all: try solve [rewrite !advance_endLight, Hfall; reflexivity].
  rewrite !advance_breakpointLight. unfold breakpointTriggered.
  rewrite Hcyc. reflexivity.
Qed.

Lemma processSlope_erase io deltaTime freeze chaosAmount now ch :
  chaosAmount <= 0 ->
  withChaosMod 0 (processSlope io deltaTime freeze chaosAmount now ch)
  = withChaosMod 0 (processSlope (withDraws 0 0 0 io) deltaTime freeze chaosAmount
                                 now (withChaosMod 0 ch)).
Proof.
  intros H. unfold processSlope.
  assert (He : withChaosMod 0 (syncBlock io now (triggerBlock io ch))
               = withChaosMod 0 (syncBlock (withDraws 0 0 0 io) now
                                   (triggerBlock (withDraws 0 0 0 io)
                                                 (withChaosMod 0 ch)))).
  { rewrite syncBlock_erase. rewrite triggerBlock_erase.
    symmetry. rewrite syncBlock_erase.
    replace (withDraws 0 0 0 (withDraws 0 0 0 io)) with (withDraws 0 0 0 io)
      by reflexivity.
    reflexivity. }
  destruct freeze; [exact He|].
  rewrite advance_erase by exact H.
  rewrite He.
  symmetry. rewrite advance_erase by exact H.
  reflexivity.
Qed.

Lemma sameStateAButSeed_step t1 t2 m1 m2 :
  sameSideAButDraws t1 t2 -> chaosOffA t1 -> sameStateAButSeed m1 m2 ->
  sameStateAButSeed (step t1 m1) (step t2 m2).
Proof.
  intros (Hd & Hio & Hb & Hcv & Hcp & Hcc) Hoff (Hs & Hf & Hp & Hn).
  assert (Hfr : frozenA t1 m1 = frozenA t2 m2).
  { unfold frozenA. now rewrite Hb, Hcv, Hp, Hf. }
  assert (Hoff2 : chaosAmountOf (chaosAParam t2) (chaosACv t2) <= 0).
  { rewrite <- Hcp, <- Hcc. exact Hoff. }
  unfold sameStateAButSeed, sameButSeed. repeat split.
  - rewrite !slopeA_step.
    rewrite processSlope_erase by exact Hoff.
    rewrite (processSlope_erase (ioA t2)) by exact Hoff2.
    unfold sameButDraws in Hio. unfold sameButSeed in Hs.
    now rewrite Hd, Hio, Hfr, Hcp, Hcc, Hn, Hs.
  - exact Hfr.
  - change (Rgtb (freezeAButton t1) 0.5 = Rgtb (freezeAButton t2) 0.5).
    now rewrite Hb.
  - rewrite !currentTime_step. now rewrite Hn, Hd.
Qed.

(** X15.  Nothing channel B reads or holds reaches channel A, except by way
    of the random generator the two channels share.  Two runs whose ticks
    agree on the sample time and on A's panel, trigger, sync, freeze and
    chaos inputs, started from modules that agree on A's state, its freeze
    state and the clock, end with the same channel A, whatever is patched
    into B and whatever B's state is, when the generator hands A the same
    values in both.  When the chaos amount of A is 0 on every tick, the
    values the generator hands out do not matter either: the two runs end
    with the same channel A up to the stored seed, which is then read
    nowhere. *)
Theorem channel_A_ignores_B (ts1 ts2 : list Tick) (m1 m2 : Matho) :
  (Forall2 sameSideA ts1 ts2 -> sameStateA m1 m2 ->
   slopeA (run ts1 m1) = slopeA (run ts2 m2) /\
   freezeAState (run ts1 m1) = freezeAState (run ts2 m2)) /\
  (Forall2 sameSideAButDraws ts1 ts2 -> Forall chaosOffA ts1 ->
   sameStateAButSeed m1 m2 ->
   sameButSeed (slopeA (run ts1 m1)) (slopeA (run ts2 m2)) /\
   freezeAState (run ts1 m1) = freezeAState (run ts2 m2)).
Proof.
  split.
  - intros Hts. revert m1 m2.
    induction Hts as [|t1 t2 ts1 ts2 Ht Hrest IH]; intros m1 m2 Hm.
    + destruct Hm as (Hs & Hf & _). auto.
    + cbn [run]. apply IH. now apply sameStateA_step.
  - intros Hts. revert m1 m2.
    induction Hts as [|t1 t2 ts1 ts2 Ht Hrest IH]; intros m1 m2 Hoff Hm.
    + destruct Hm as (Hs & Hf & _). auto.
    + cbn [run]. inversion Hoff as [|? ? Hoff1 Hoffs]; subst.
      apply IH; [exact Hoffs|]. now apply sameStateAButSeed_step.
Qed.

(** Channel A triggered on both ticks with the chaos knob at 0; in the
    second run channel B is patched, triggered and frozen, the module was
    built with other seeds, and the generator hands A other values. *)
Lemma channel_A_ignores_B_witness :
  let io := panel (cableAt 5) noCable 0 0 0.5 in
  let t1 := tickA io 0.1 0 in
  let t2 := mkTick 0.1 io (panel (cableAt 5) (cableAt 5) 0 1 0.2) 0 1
                   noCable (cableAt 5) 0 1 noCable noCable 0.9 in
  let t3 := mkTick 0.1 (withDraws 0.9 0.1 0.7 io)
                   (panel (cableAt 5) (cableAt 5) 0 1 0.2) 0 1
                   noCable (cableAt 5) 0 1 noCable noCable 0.9 in
  slopeA (run [t1; t1] (initMatho 0.5 0.5)) = slopeA (run [t2; t2] (initMatho 0.5 0.1))
  /\ sameButSeed (slopeA (run [t1; t1] (initMatho 0.5 0.5)))
                 (slopeA (run [t3; t3] (initMatho 0.2 0.1))).
Proof.
  cbv zeta.
  set (io := panel (cableAt 5) noCable 0 0 0.5).
  set (t1 := tickA io 0.1 0).
  assert (Hoff : chaosOffA t1).
  { unfold chaosOffA, chaosAmountOf, t1. fields_simpl.
    rewrite clamp_inside; lra. }
  split.
  - apply channel_A_ignores_B.
    + repeat constructor.
    + repeat split.
  - apply channel_A_ignores_B.
    + repeat constructor.
    + apply Forall_cons; [exact Hoff|].
      apply Forall_cons; [exact Hoff | apply Forall_nil].
    + repeat split.
Defined.

(** ** The shape of the curve *)

Lemma powf_monotone (x y e : R) :
  0 <= x -> x <= y -> 0 < e -> powf x e <= powf y e.
Proof.
  intros Hx Hxy He. unfold powf.
  destruct (Req_dec_T e 0); [lra|].
  destruct (Rle_dec x 0); destruct (Rle_dec y 0); try lra.
  - left. apply exp_pos.
  - apply Rle_Rpower_l; lra.
Qed.

Lemma powf_below_line (x e : R) : 0 <= x <= 1 -> 1 <= e -> powf x e <= x.
Proof.
  intros [Hx0 Hx1] He. unfold powf.
  destruct (Req_dec_T e 0); [lra|].
  destruct (Rle_dec x 0); [lra|].
  assert (Hx : 0 < x) by lra.
  rewrite <- (Rpower_1 x Hx) at 2. unfold Rpower.
  assert (Hln : ln x <= 0).
  { rewrite <- ln_1. destruct Hx1 as [Hlt | ->]; [|lra].
    left. now apply ln_increasing. }
  destruct (Rle_lt_or_eq_dec (e * ln x) (1 * ln x)) as [Hlt | Heq]; [nra | |].
  - left. now apply exp_increasing.
  - right. now rewrite Heq.
Qed.

(** X16.  For every curvature the curve shaper is monotone on [0, 1]: a
    later phase never gives a smaller shaped phase, so the published value
    never falls within a rise and never rises within a fall. *)
Theorem applyCurve_monotone (p q c : R) :
  0 <= p -> p <= q -> q <= 1 ->
  applyCurve p c <= applyCurve q c /\
  slopeValueAt c true p <= slopeValueAt c true q /\
  slopeValueAt c false q <= slopeValueAt c false p.
Proof.
  intros Hp Hpq Hq.
  assert (H : applyCurve p c <= applyCurve q c).
  { unfold applyCurve.
    destruct (Rltb c 0) eqn:Hneg.
    - apply Rltb_true_iff in Hneg. apply powf_monotone; lra.
    - destruct (Rgtb c 0) eqn:Hpos; [|exact Hpq].
      apply Rgtb_true_iff in Hpos.
      assert (powf (1 - q) (1 + c * 8) <= powf (1 - p) (1 + c * 8))
        by (apply powf_monotone; lra).
      lra. }
  unfold slopeValueAt. rewrite !rawPhaseAt_applyCurve. repeat split; lra.
Qed.

Lemma applyCurve_monotone_witness :
  applyCurve 0.25 (-0.5) <= applyCurve 0.75 (-0.5).
Proof. apply (applyCurve_monotone 0.25 0.75 (-0.5)); lra. Defined.

(** X17.  On [0, 1] a negative curvature keeps the shaped phase at or below
    the phase (slow start) and a positive curvature at or above it (fast
    start); at curvature 0 the shaper is the identity. *)
Theorem applyCurve_against_the_line (p c : R) :
  0 <= p <= 1 ->
  (c < 0 -> applyCurve p c <= p) /\
  (0 < c -> p <= applyCurve p c) /\
  (c = 0 -> applyCurve p c = p).
Proof.
  intros Hp. unfold applyCurve. repeat split; intros Hc; Rbool.
  - apply powf_below_line; lra.
  - assert (powf (1 - p) (1 + c * 8) <= 1 - p) by (apply powf_below_line; lra).
    lra.
  - reflexivity.
Qed.

Lemma applyCurve_against_the_line_witness :
  applyCurve 0.5 (-1) <= 0.5 /\ 0.5 <= applyCurve 0.5 1.
Proof.
  destruct (applyCurve_against_the_line 0.5 (-1)) as (H1 & _); [lra|].
  destruct (applyCurve_against_the_line 0.5 1) as (_ & H2 & _); [lra|].
  split; [apply H1 | apply H2]; lra.
Defined.

(** ** The sync period stays in its clamp *)

Lemma processSlope_syncPeriod_bounds io deltaTime freeze chaosAmount now ch :
  0.01 <= syncPeriod ch <= 10 ->
  0.01 <= syncPeriod (processSlope io deltaTime freeze chaosAmount now ch) <= 10.
Proof.
  intros Hp. destruct (syncEdge io ch) eqn:He.
  - destruct (processSlope_sync_edge io deltaTime freeze chaosAmount now ch He)
      as [_ ->].
    destruct (Rgtb (lastSyncTime ch) 0); [|exact Hp].
    pose proof (clamp_bounds (now - lastSyncTime ch) 0.01 10.0). lra.
  - now destruct (processSlope_sync_quiet io deltaTime freeze chaosAmount now ch He)
      as [_ ->].
Qed.

(** X18.  From the initial state the sync period of both channels stays
    between 10 ms and 10 s through every run, and the stored sync timestamp
    never lies ahead of the clock when every [deltaTime] is positive. *)
Theorem sync_period_bounds (uA uB : R) (ts : list Tick) (s : Side) :
  Forall (fun t => 0 < sampleTime t) ts ->
  let m := run ts (initMatho uA uB) in
  0.01 <= syncPeriod (slopeOf s m) <= 10 /\
  0 <= lastSyncTime (slopeOf s m) <= currentTime m.
Proof.
  intros Hts m.
  assert (Hgen : forall ts m0,
             Forall (fun t => 0 < sampleTime t) ts ->
             (forall s, 0.01 <= syncPeriod (slopeOf s m0) <= 10 /\
                        0 <= lastSyncTime (slopeOf s m0) <= currentTime m0) ->
             forall s, 0.01 <= syncPeriod (slopeOf s (run ts m0)) <= 10 /\
                       0 <= lastSyncTime (slopeOf s (run ts m0))
                       <= currentTime (run ts m0)).
  { clear. induction ts as [|t ts IH]; intros m0 Hts H0 s; [apply H0|].
    inversion Hts as [|? ? Hd Hrest]; subst.
    cbn [run]. apply IH; [exact Hrest|]. intros s'.
    destruct (H0 s') as [Hp Hl].
    rewrite slopeOf_step, currentTime_step. split.
    - now apply processSlope_syncPeriod_bounds.
    - destruct (syncEdge (ioOf s' t) (slopeOf s' m0)) eqn:He.
      + destruct (processSlope_sync_edge (ioOf s' t) (sampleTime t)
                    (frozenOf s' t m0) (chaosOf s' t)
                    (currentTime m0 + sampleTime t) (slopeOf s' m0) He) as [-> _].
        lra.
      + destruct (processSlope_sync_quiet (ioOf s' t) (sampleTime t)
                    (frozenOf s' t m0) (chaosOf s' t)
                    (currentTime m0 + sampleTime t) (slopeOf s' m0) He) as [-> _].
        lra. }
  apply Hgen; [exact Hts|].
  intros s'. destruct s'; simpl; lra.
Qed.

Lemma sync_period_bounds_witness :
  let high := tickA (panel noCable (cableAt 5) 0 0 0.5) 1 0 in
  let low := tickA (panel noCable (cableAt 0) 0 0 0.5) 1 0 in
  0.01 <= syncPeriod (slopeA (run [high; low; high] (initMatho 0.5 0.5))) <= 10.
Proof.
  cbv zeta.
  apply (sync_period_bounds 0.5 0.5
           [tickA (panel noCable (cableAt 5) 0 0 0.5) 1 0;
            tickA (panel noCable (cableAt 0) 0 0 0.5) 1 0;
            tickA (panel noCable (cableAt 5) 0 0 0.5) 1 0] SideA).
  repeat constructor; fields_simpl; lra.
Defined.

(** * Properties of the window comparator *)

Lemma comparally_size_pos (io : Comparally.ChannelIO) : 0.0001 <= Comparally.size io.
Proof.
  unfold Comparally.size.
  destruct (Rltb 0.0001 (Comparally.sizeParam io
                         + getVoltage (Comparally.sizeCv io))) eqn:H.
  - apply Rltb_true_iff in H. lra.
  - lra.
Qed.

Lemma comparally_edges_apart (io : Comparally.ChannelIO) :
  Comparally.loEdge io < Comparally.hiEdge io.
Proof.
  unfold Comparally.loEdge, Comparally.hiEdge.
  pose proof (comparally_size_pos io). lra.
Qed.

(** X19.  A channel of the comparator whose input is more than 0.1 V above
    the upper edge of its window ends the tick with HI alone, one whose
    input is more than 0.1 V below the lower edge with LO alone, whatever
    its flags were; the window is never narrower than 0.1 mV, so the two
    cases exclude each other. *)
Theorem comparally_outside_the_band
        (inp : R) (io : Comparally.ChannelIO) (g : Comparally.Gates) :
  (Comparally.hiEdge io + Comparally.H < inp ->
   Comparally.runChannel inp io g = Comparally.mkGates true false false) /\
  (inp < Comparally.loEdge io - Comparally.H ->
   Comparally.runChannel inp io g = Comparally.mkGates false false true) /\
  0.0001 <= Comparally.hiEdge io - Comparally.loEdge io.
Proof.
  pose proof (comparally_edges_apart io) as Hedge.
  unfold Comparally.runChannel, Comparally.H in *. repeat split.
  - intros Hin. Rbool. reflexivity.
  - intros Hin. Rbool. reflexivity.
  - unfold Comparally.loEdge, Comparally.hiEdge.
    pose proof (comparally_size_pos io). lra.
Qed.

(** X20.  Hysteresis of a channel whose flags are exclusive, for an input
    within 0.1 V of the window: WIN is kept; HI is kept while the input is
    above the upper edge minus 0.1 V and gives way to WIN at or below it;
    LO is kept while the input is below the lower edge plus 0.1 V and gives
    way to WIN at or above it. *)
Theorem comparally_hysteresis
        (inp : R) (io : Comparally.ChannelIO) (g : Comparally.Gates) :
  Comparally.exclusive g ->
  Comparally.loEdge io - Comparally.H <= inp ->
  inp <= Comparally.hiEdge io + Comparally.H ->
  (Comparally.win g = true -> Comparally.runChannel inp io g = g) /\
  (Comparally.hi g = true -> Comparally.hiEdge io - Comparally.H < inp ->
   Comparally.runChannel inp io g = g) /\
  (Comparally.hi g = true -> inp <= Comparally.hiEdge io - Comparally.H ->
   Comparally.runChannel inp io g = Comparally.mkGates false true false) /\
  (Comparally.lo g = true -> inp < Comparally.loEdge io + Comparally.H ->
   Comparally.runChannel inp io g = g) /\
  (Comparally.lo g = true -> Comparally.loEdge io + Comparally.H <= inp ->
   Comparally.runChannel inp io g = Comparally.mkGates false true false).
Proof.
  intros [Hhi Hwin] Hlo Hup.
  unfold Comparally.runChannel, Comparally.H in *.
  rewrite (proj2 (Rgtb_false_iff _ _)) by exact Hup.
  rewrite (proj2 (Rltb_false_iff _ _)) by exact Hlo.
  destruct g as [h w l]. cbn [Comparally.hi Comparally.win Comparally.lo] in *.
  repeat split.
  - intros ->. destruct h; [destruct (Hhi eq_refl); discriminate|].
    rewrite (Hwin eq_refl). reflexivity.
  - intros -> Hin. destruct (Hhi eq_refl) as [-> ->]. Rbool.
    cbn [andb orb negb]. now rewrite andb_false_r.
  - intros -> Hin. Rbool. reflexivity.
  - intros -> Hin. destruct h; [destruct (Hhi eq_refl); discriminate|].
    destruct w; [specialize (Hwin eq_refl); discriminate|]. now Rbool.
  - intros -> Hin. Rbool. cbn [andb orb]. now rewrite orb_true_r.
Qed.

Lemma comparally_hysteresis_witness :
  let io := Comparally.knobs 0.45 0 1 in
  Comparally.runChannel 0.45 io (Comparally.mkGates true false false)
  = Comparally.mkGates true false false /\
  Comparally.runChannel 0.45 io (Comparally.mkGates false true false)
  = Comparally.mkGates false true false.
Proof.
  cbv zeta.
  set (io := Comparally.knobs 0.45 0 1).
  assert (Hsize : Comparally.size io = 1).
  { unfold Comparally.size, io, Comparally.knobs.
    cbn [Comparally.sizeParam Comparally.sizeCv getVoltage plugged].
    Rbool. lra. }
  assert (Hhi : Comparally.hiEdge io = 0.5).
  { unfold Comparally.hiEdge, Comparally.center. rewrite Hsize.
    unfold io, Comparally.knobs.
    cbn [Comparally.shiftParam Comparally.shiftCv getVoltage plugged]. lra. }
  assert (Hlo : Comparally.loEdge io = -0.5).
  { unfold Comparally.loEdge, Comparally.center. rewrite Hsize.
    unfold io, Comparally.knobs.
    cbn [Comparally.shiftParam Comparally.shiftCv getVoltage plugged]. lra. }
  assert (Hin : Comparally.loEdge io - Comparally.H <= 0.45
                /\ 0.45 <= Comparally.hiEdge io + Comparally.H).
  { rewrite Hhi, Hlo. unfold Comparally.H. lra. }
  destruct Hin as [Hin1 Hin2].
  split.
  - destruct (comparally_hysteresis 0.45 io (Comparally.mkGates true false false))
      as (_ & Hkeep & _); try assumption.
    + split; [auto | discriminate].
    + apply Hkeep; [reflexivity|]. rewrite Hhi. unfold Comparally.H. lra.
  - destruct (comparally_hysteresis 0.45 io (Comparally.mkGates false true false))
      as (Hkeep & _); try assumption.
    + split; [discriminate | auto].
    + now apply Hkeep.
Defined.

Lemma comparally_runChannel_exclusive inp io g :
  Comparally.exclusive g -> Comparally.exclusive (Comparally.runChannel inp io g).
Proof.
  intros Hg. unfold Comparally.runChannel.
  destruct (Rgtb inp (Comparally.hiEdge io + Comparally.H));
    [split; simpl; [auto | discriminate]|].
  destruct (Rltb inp (Comparally.loEdge io - Comparally.H));
    [split; simpl; discriminate|].
  match goal with |- context [if ?c then _ else _] => destruct c end;
    [split; simpl; [discriminate | auto] | exact Hg].
Qed.

Lemma comparally_runChannel_stays_set inp io g :
  (Comparally.hi g || Comparally.win g || Comparally.lo g = true)%bool ->
  let g' := Comparally.runChannel inp io g in
  (Comparally.hi g' || Comparally.win g' || Comparally.lo g' = true)%bool.
Proof.
  intros Hg. unfold Comparally.runChannel.
  destruct (Rgtb inp (Comparally.hiEdge io + Comparally.H)); [reflexivity|].
  destruct (Rltb inp (Comparally.loEdge io - Comparally.H)); [reflexivity|].
  match goal with |- context [if ?c then _ else _] => destruct c end;
    [reflexivity | exact Hg].
Qed.

(** X21.  After any run of the comparator from its initial state, each of
    the four channels has at most one of HI, WIN and LO set, so the three
    gate outputs of a channel never add up to more than 10 V; and a channel
    that has a flag set keeps one set on every later tick. *)
Theorem comparally_one_gate_per_channel (ts : list Comparally.Tick) :
  let s := Comparally.run ts Comparally.init in
  (Comparally.exclusive (Comparally.gatesA s) /\
   Comparally.exclusive (Comparally.gatesB s) /\
   Comparally.exclusive (Comparally.gatesC s) /\
   Comparally.exclusive (Comparally.gatesD s)) /\
  (forall t,
      let o := snd (Comparally.process t s) in
      Comparally.A_HI_OUTPUT o + Comparally.A_WIN_OUTPUT o
      + Comparally.A_LO_OUTPUT o <= 10 /\
      Comparally.B_HI_OUTPUT o + Comparally.B_WIN_OUTPUT o
      + Comparally.B_LO_OUTPUT o <= 10 /\
      Comparally.C_HI_OUTPUT o + Comparally.C_WIN_OUTPUT o
      + Comparally.C_LO_OUTPUT o <= 10 /\
      Comparally.D_HI_OUTPUT o + Comparally.D_WIN_OUTPUT o
      + Comparally.D_LO_OUTPUT o <= 10) /\
  (forall inp io g,
      (Comparally.hi g || Comparally.win g || Comparally.lo g = true)%bool ->
      (Comparally.hi (Comparally.runChannel inp io g)
       || Comparally.win (Comparally.runChannel inp io g)
       || Comparally.lo (Comparally.runChannel inp io g) = true)%bool).
Proof.
  intros s.
  assert (Hgen : forall ts s0,
             (Comparally.exclusive (Comparally.gatesA s0) /\
              Comparally.exclusive (Comparally.gatesB s0) /\
              Comparally.exclusive (Comparally.gatesC s0) /\
              Comparally.exclusive (Comparally.gatesD s0)) ->
             Comparally.exclusive (Comparally.gatesA (Comparally.run ts s0)) /\
             Comparally.exclusive (Comparally.gatesB (Comparally.run ts s0)) /\
             Comparally.exclusive (Comparally.gatesC (Comparally.run ts s0)) /\
             Comparally.exclusive (Comparally.gatesD (Comparally.run ts s0))).
  { clear. induction ts as [|t ts IH]; intros s0 H0; [exact H0|].
    cbn [Comparally.run]. apply IH. destruct H0 as (Ha & Hb & Hc & Hd).
    unfold Comparally.step, Comparally.process.
    cbn [fst Comparally.gatesA Comparally.gatesB Comparally.gatesC Comparally.gatesD].
    split; [|split; [|split]]; now apply comparally_runChannel_exclusive. }
  assert (Hex : Comparally.exclusive (Comparally.gatesA s) /\
                Comparally.exclusive (Comparally.gatesB s) /\
                Comparally.exclusive (Comparally.gatesC s) /\
                Comparally.exclusive (Comparally.gatesD s)).
  { apply Hgen. unfold Comparally.exclusive. simpl.
    repeat split; discriminate. }
  assert (Hsum : forall g, Comparally.exclusive g ->
                   Comparally.gate (Comparally.hi g) + Comparally.gate (Comparally.win g)
                   + Comparally.gate (Comparally.lo g) <= 10).
  { intros [h w l] [H1 H2]. simpl in *.
    destruct h; [destruct (H1 eq_refl) as [-> ->]; simpl; lra|].
    destruct w; [rewrite (H2 eq_refl); simpl; lra|].
    destruct l; simpl; lra. }
  split; [exact Hex|]. split.
  - intros t o. destruct Hex as (Ha & Hb & Hc & Hd).
    unfold o, Comparally.process.
    cbn [snd Comparally.A_HI_OUTPUT Comparally.A_WIN_OUTPUT Comparally.A_LO_OUTPUT
             Comparally.B_HI_OUTPUT Comparally.B_WIN_OUTPUT Comparally.B_LO_OUTPUT
             Comparally.C_HI_OUTPUT Comparally.C_WIN_OUTPUT Comparally.C_LO_OUTPUT
             Comparally.D_HI_OUTPUT Comparally.D_WIN_OUTPUT Comparally.D_LO_OUTPUT].
    repeat split; apply Hsum; now apply comparally_runChannel_exclusive.
  - intros inp io g. apply comparally_runChannel_stays_set.
Qed.

Lemma comparally_gate_cases (b : bool) :
  Comparally.gate b = 0 \/ Comparally.gate b = 10.
Proof. destruct b; simpl; auto. Qed.

(** X22.  In every tick of the comparator the OR output of a pair is the
    sum of its AND and XOR outputs, and the three Pairs outputs are
    functions of the two OR outputs alone: Pairs AND is their minimum,
    Pairs OR their maximum, Pairs XOR the difference of the two. *)
Theorem comparally_pair_logic (t : Comparally.Tick) (s : Comparally.State) :
  let o := snd (Comparally.process t s) in
  Comparally.AB_OR_OUTPUT o
  = Comparally.AB_AND_OUTPUT o + Comparally.AB_XOR_OUTPUT o /\
  Comparally.CD_OR_OUTPUT o
  = Comparally.CD_AND_OUTPUT o + Comparally.CD_XOR_OUTPUT o /\
  Comparally.PAIRS_AND_OUTPUT o
  = Rmin (Comparally.AB_OR_OUTPUT o) (Comparally.CD_OR_OUTPUT o) /\
  Comparally.PAIRS_OR_OUTPUT o
  = Rmax (Comparally.AB_OR_OUTPUT o) (Comparally.CD_OR_OUTPUT o) /\
  Comparally.PAIRS_XOR_OUTPUT o
  = Comparally.PAIRS_OR_OUTPUT o - Comparally.PAIRS_AND_OUTPUT o.
Proof.
  intros o. unfold o, Comparally.process.
  cbn [snd Comparally.AB_OR_OUTPUT Comparally.AB_AND_OUTPUT Comparally.AB_XOR_OUTPUT
           Comparally.CD_OR_OUTPUT Comparally.CD_AND_OUTPUT Comparally.CD_XOR_OUTPUT
           Comparally.PAIRS_AND_OUTPUT Comparally.PAIRS_OR_OUTPUT
           Comparally.PAIRS_XOR_OUTPUT].
  generalize (Comparally.win (Comparally.runChannel (Comparally.inA t)
                (Comparally.panelA t) (Comparally.gatesA s))).
  generalize (Comparally.win (Comparally.runChannel (Comparally.inB t)
                (Comparally.panelB t) (Comparally.gatesB s))).
  generalize (Comparally.win (Comparally.runChannel (Comparally.inC t)
                (Comparally.panelC t) (Comparally.gatesC s))).
  generalize (Comparally.win (Comparally.runChannel (Comparally.inD t)
                (Comparally.panelD t) (Comparally.gatesD s))).
  intros d c b a.
  destruct a, b, c, d; cbn [andb orb xorb negb Comparally.gate];
    unfold Rmin, Rmax;
    repeat match goal with
           | |- context [Rle_dec ?x ?y] => destruct (Rle_dec x y)
           end;
    repeat split; lra.
Qed.

(** The flip-flop of the pair A+B over a run. *)
Lemma comparally_flip_xorb (x previous ff : bool) :
  Comparally.flip x previous ff = xorb ff (x && negb previous).
Proof. unfold Comparally.flip. now destruct x, previous, ff. Qed.

(** X23.  The A+B flip-flop changes on the ticks at which the A+B XOR goes
    from low to high and on no others: after a run it is its value before
    the run, inverted if and only if the XOR rose an odd number of times. *)
Theorem comparally_flipflop_counts_edges
        (ts : list Comparally.Tick) (s : Comparally.State) :
  Comparally.abFlipFlop (Comparally.run ts s)
  = xorb (Comparally.abFlipFlop s)
         (Nat.odd (Comparally.risingEdges (Comparally.abXorPrevious s)
                                          (Comparally.abXorTrace ts s))).
Proof.
  revert s. induction ts as [|t ts IH]; intros s.
  - simpl. now rewrite xorb_false_r.
  - cbn [Comparally.run Comparally.abXorTrace Comparally.risingEdges].
    rewrite IH.
    set (x := Comparally.abXorPrevious (Comparally.step t s)).
    assert (Hff : Comparally.abFlipFlop (Comparally.step t s)
                  = xorb (Comparally.abFlipFlop s)
                         (x && negb (Comparally.abXorPrevious s))).
    { unfold x, Comparally.step, Comparally.process.
      cbn [fst Comparally.abFlipFlop Comparally.abXorPrevious].
      apply comparally_flip_xorb. }
    rewrite Hff.
    destruct (x && negb (Comparally.abXorPrevious s))%bool.
    + change (1 + ?n)%nat with (S n). rewrite Nat.odd_succ, <- Nat.negb_odd.
      destruct (Comparally.abFlipFlop s);
        destruct (Nat.odd (Comparally.risingEdges x
                             (Comparally.abXorTrace ts (Comparally.step t s))));
        reflexivity.
    + cbn [Nat.add]. now rewrite xorb_false_r.
Qed.

Lemma comparally_runChannel_window inp x y g :
  Comparally.sameWindow x y ->
  Comparally.runChannel inp x g = Comparally.runChannel inp y g.
Proof.
  intros [Hc Hs]. unfold Comparally.runChannel, Comparally.hiEdge, Comparally.loEdge.
  now rewrite Hc, Hs.
Qed.

(** X24.  An unplugged input jack takes the input of the channel before it:
    over a run in which only A's input is patched and the four windows are
    the same, the four channels go through the same HI, WIN and LO flags,
    so that both XOR outputs are low and both AND outputs repeat A's WIN. *)
Theorem comparally_unpatched_inputs_follow_A (ts : list Comparally.Tick) :
  Forall Comparally.followsA ts ->
  let s := Comparally.run ts Comparally.init in
  Comparally.gatesB s = Comparally.gatesA s /\
  Comparally.gatesC s = Comparally.gatesA s /\
  Comparally.gatesD s = Comparally.gatesA s /\
  Comparally.abXorPrevious s = false /\ Comparally.cdXorPrevious s = false.
Proof.
  intros Hts s.
  assert (Hgen : forall ts s0,
             Forall Comparally.followsA ts ->
             (Comparally.gatesB s0 = Comparally.gatesA s0 /\
              Comparally.gatesC s0 = Comparally.gatesA s0 /\
              Comparally.gatesD s0 = Comparally.gatesA s0 /\
              Comparally.abXorPrevious s0 = false /\
              Comparally.cdXorPrevious s0 = false) ->
             Comparally.gatesB (Comparally.run ts s0)
             = Comparally.gatesA (Comparally.run ts s0) /\
             Comparally.gatesC (Comparally.run ts s0)
             = Comparally.gatesA (Comparally.run ts s0) /\
             Comparally.gatesD (Comparally.run ts s0)
             = Comparally.gatesA (Comparally.run ts s0) /\
             Comparally.abXorPrevious (Comparally.run ts s0) = false /\
             Comparally.cdXorPrevious (Comparally.run ts s0) = false).
  { clear. induction ts as [|t ts IH]; intros s0 Hts H0; [exact H0|].
    inversion Hts as [|? ? (Hb & Hc & Hd & Hwb & Hwc & Hwd) Hrest]; subst.
    cbn [Comparally.run]. apply IH; [exact Hrest|].
    destruct H0 as (Hgb & Hgc & Hgd & _).
    assert (HinB : Comparally.inB t = Comparally.inA t)
      by (unfold Comparally.inB; now rewrite Hb).
    assert (HinC : Comparally.inC t = Comparally.inA t)
      by (unfold Comparally.inC; now rewrite Hc).
    assert (HinD : Comparally.inD t = Comparally.inA t)
      by (unfold Comparally.inD; now rewrite Hd, HinC).
    unfold Comparally.step, Comparally.process.
    cbn [fst Comparally.gatesA Comparally.gatesB Comparally.gatesC Comparally.gatesD
             Comparally.abXorPrevious Comparally.cdXorPrevious].
    rewrite HinB, HinC, HinD, Hgb, Hgc, Hgd.
    rewrite <- (comparally_runChannel_window _ _ _ _ Hwb).
    rewrite <- (comparally_runChannel_window _ _ _ _ Hwc).
    rewrite <- (comparally_runChannel_window _ _ _ _ Hwd).
    repeat split; apply xorb_nilpotent. }
  apply Hgen; [exact Hts|]. repeat split.
Qed.

Lemma comparally_unpatched_inputs_follow_A_witness :
  let t := Comparally.mkTick (Comparally.knobs 3 0 1) (Comparally.unpatched 0 1)
                             (Comparally.unpatched 0 1) (Comparally.unpatched 0 1) in
  Comparally.gatesD (Comparally.run [t; t] Comparally.init)
  = Comparally.gatesA (Comparally.run [t; t] Comparally.init).
Proof.
  cbv zeta.
  apply comparally_unpatched_inputs_follow_A.
  repeat constructor.
Defined.

(** ** Instances of the statements above *)

(** After a trigger and one more tick channel A is rising at phase 0.2, and
    mode 1 accepts. *)
Lemma rise_phase_below_one_witness :
  let io := panel (cableAt 5) noCable 0 0 0.5 in
  let ch := slopeA (run [tickA io 0.1 0; tickA io 0.1 0] (initMatho 0.5 0.5)) in
  (rising ch = true -> phase ch < 1) /\ triggerAccepted 1 ch = rising ch.
Proof.
  cbv zeta.
  destruct (rise_phase_below_one 0.5 0.5
              [tickA (panel (cableAt 5) noCable 0 0 0.5) 0.1 0;
               tickA (panel (cableAt 5) noCable 0 0 0.5) 0.1 0] SideA)
    as (H1 & H2 & _).
  split; [exact H1 | exact H2].
Defined.

(** A trigger held at 5 V over two ticks: the second tick sees no edge. *)
Lemma edges_need_a_low_tick_witness :
  let io := panel (cableAt 5) noCable 0 0 0.5 in
  acceptedTrigger io (processSlope io 0.1 false 0 1 (stageAt false 1 false)) = false.
Proof.
  cbv zeta.
  destruct (edges_need_a_low_tick (panel (cableAt 5) noCable 0 0 0.5)
              (panel (cableAt 5) noCable 0 0 0.5) 0.1 false 0 1
              (stageAt false 1 false)) as (_ & _ & H).
  apply H. unfold currentTrigger. fields_simpl. now Rbool.
Defined.

(** A window of 1 V around 0 V: 3 V is above it, -3 V below it. *)
Lemma comparally_outside_the_band_witness :
  let io := Comparally.knobs 3 0 1 in
  Comparally.runChannel 3 io (Comparally.mkGates false false true)
  = Comparally.mkGates true false false /\
  Comparally.runChannel (-3) io (Comparally.mkGates true false false)
  = Comparally.mkGates false false true.
Proof.
  cbv zeta.
  set (io := Comparally.knobs 3 0 1).
  assert (Hsize : Comparally.size io = 1).
  { unfold Comparally.size, io, Comparally.knobs.
    cbn [Comparally.sizeParam Comparally.sizeCv getVoltage plugged].
    Rbool. lra. }
  assert (Hc : Comparally.center io = 0).
  { unfold Comparally.center, io, Comparally.knobs.
    cbn [Comparally.shiftParam Comparally.shiftCv getVoltage plugged]. lra. }
  split.
  - apply (proj1 (comparally_outside_the_band 3 io _)).
    unfold Comparally.hiEdge, Comparally.H. rewrite Hsize, Hc. lra.
  - apply (proj1 (proj2 (comparally_outside_the_band (-3) io _))).
    unfold Comparally.loEdge, Comparally.H. rewrite Hsize, Hc. lra.
Defined.
